(** * multispinner: a shallow embedding of multispinner.go

    The Go package keeps one [*Spinner] object that is shared between the
    callers of the control API and the [run] goroutine.  The embedding
    below passes that object explicitly, together with the local variables
    of [run] and the trace of effects on standard output.

    - Go's [int] and [time.Duration] are modelled as [Z]; slice lengths stay
      far below 2^63, so no wrap-around is written out.
    - A slice index [s.spinners[index]] panics when the index is negative or
      not below the length; this is the [Panic] result.
    - [updateChan] is unbuffered: a send completes exactly when [run] takes
      the [case msg := <-s.updateChan] branch of its [select], so a send is
      modelled as that branch running at once ([recv]); a send with no
      running receiver never completes ([Blocked]).
    - Every critical section of [s.mu] is one atomic step.  An API call is
      modelled as one sequentially consistent interleaving: its critical
      section, the rendezvous with [run], then the caller's own output. *)

From Stdlib Require Import ZArith Ascii String.
From stdpp Require Import base numbers list strings pretty.

Local Open Scope Z_scope.

(** ** Results of a call *)

Inductive result (A : Type) : Type :=
  | Ok (a : A)
  | Panic
  | Blocked.
Arguments Ok {A} a.
Arguments Panic {A}.
Arguments Blocked {A}.

#[global] Instance result_ret : MRet result := fun _ a => Ok a.
#[global] Instance result_bind : MBind result := fun _ _ f r =>
  match r with
  | Ok a => f a
  | Panic => Panic
  | Blocked => Blocked
  end.

(** ** Terminal control sequences *)

Module Esc.
Definition ESC : string := String "027"%char EmptyString.
Definition NL : string := String "010"%char EmptyString.
Definition hide_cursor : string := ESC +:+ "[?25l".
Definition show_cursor : string := ESC +:+ "[?25h".
Definition reset : string := ESC +:+ "[0m".
Definition save : string := ESC +:+ "[s".
Definition restore : string := ESC +:+ "[u".
Definition clear_line : string := ESC +:+ "[K".
Definition green : string := ESC +:+ "[32m".
Definition red : string := ESC +:+ "[31m".
End Esc.

(** ** fmt.Sprintf for the verbs the package uses *)

Inductive fmt_arg : Type :=
  | ArgS (s : string)
  | ArgD (n : Z).

(** [%s] and [%d] take the next operand, [%%] is a percent sign, any other
    byte is copied.  A verb with no operand left prints Go's
    [%!s(MISSING)] marker and a verb of the wrong kind Go's
    [%!d(string=...)] marker; operands left over at the end do not occur in
    the package and are dropped here. *)
Fixpoint Sprintf (format : string) (args : list fmt_arg) : string :=
  match format with
  | EmptyString => EmptyString
  | String "%"%char (String v rest) =>
      if Ascii.eqb v "%"%char then String "%"%char (Sprintf rest args) else
      match args with
      | ArgS s :: args' =>
          if Ascii.eqb v "s"%char then s +:+ Sprintf rest args'
          else "%!" +:+ String v ("(string=" +:+ s +:+ ")") +:+ Sprintf rest args'
      | ArgD n :: args' =>
          if Ascii.eqb v "d"%char then pretty n +:+ Sprintf rest args'
          else "%!" +:+ String v ("(int=" +:+ pretty n +:+ ")") +:+ Sprintf rest args'
      | [] => "%!" +:+ String v "(MISSING)" +:+ Sprintf rest []
      end
  | String c rest => String c (Sprintf rest args)
  end.

(** ** Data model *)

Record spinnerInfo : Type := {
  message : string;
  index : Z;
  active : bool;
  lineNum : Z;
}.

Record updateMsg : Type := {
  msg_index : Z;
  msg_message : string;
  action : string; (* "start", "stop", "error", "update" *)
}.

Record Config : Type := {
  SuccessColor : string;
  FailureColor : string;
  Frequency : Z; (* nanoseconds *)
}.

(** The fields of [Spinner] that hold data; [mu], [stopChan] and
    [updateChan] are the synchronisation described at the top. *)
Record Spinner : Type := {
  spinners : list spinnerInfo;
  successColor : string;
  failureColor : string;
  frequency : Z;
  currentLine : Z;
  activeCount : Z;
  startLine : Z;
}.

(** What the process does to the outside, in order. *)
Inductive effect : Type :=
  | FmtPrint (s : string)   (* fmt.Print / fmt.Printf on stdout *)
  | Sync                 (* os.Stdout.Sync() *)
  | Sleep (d : Z).       (* time.Sleep *)

#[global] Instance effect_eq_dec : EqDecision effect.
Proof. solve_decision. Defined.

Record World : Type := {
  sp : Spinner;          (* the shared *Spinner *)
  loop_i : nat;          (* run's local [i] *)
  firstRun : bool;       (* run's local [firstRun] *)
  running : bool;        (* run has not returned *)
  term : list effect;    (* effects so far, oldest first *)
}.

Definition Millisecond : Z := 1000000.

Definition with_sp (f : Spinner -> Spinner) (w : World) : World :=
  {| sp := f (sp w); loop_i := loop_i w; firstRun := firstRun w;
     running := running w; term := term w |}.

Definition emit (e : effect) (w : World) : World :=
  {| sp := sp w; loop_i := loop_i w; firstRun := firstRun w;
     running := running w; term := term w ++ [e] |}.

Definition set_spinners (l : list spinnerInfo) (s : Spinner) : Spinner :=
  {| spinners := l; successColor := successColor s;
     failureColor := failureColor s; frequency := frequency s;
     currentLine := currentLine s; activeCount := activeCount s;
     startLine := startLine s |}.

Definition set_currentLine (n : Z) (s : Spinner) : Spinner :=
  {| spinners := spinners s; successColor := successColor s;
     failureColor := failureColor s; frequency := frequency s;
     currentLine := n; activeCount := activeCount s;
     startLine := startLine s |}.

Definition set_activeCount (n : Z) (s : Spinner) : Spinner :=
  {| spinners := spinners s; successColor := successColor s;
     failureColor := failureColor s; frequency := frequency s;
     currentLine := currentLine s; activeCount := n;
     startLine := startLine s |}.

Definition set_message (m : string) (r : spinnerInfo) : spinnerInfo :=
  {| message := m; index := index r; active := active r; lineNum := lineNum r |}.

Definition set_active (b : bool) (r : spinnerInfo) : spinnerInfo :=
  {| message := message r; index := index r; active := b; lineNum := lineNum r |}.

(** [len(s.spinners)] *)
Definition len (s : Spinner) : Z := Z.of_nat (length (spinners s)).

(** [s.spinners[index]] with Go's bounds check. *)
Definition at_index (l : list spinnerInfo) (index : Z) : result spinnerInfo :=
  if index <? 0 then Panic
  else match l !! Z.to_nat index with
       | Some r => Ok r
       | None => Panic
       end.

(** Assignment through the pointer [s.spinners[index]]. *)
Definition update_at (index : Z) (f : spinnerInfo -> spinnerInfo) (w : World) : World :=
  with_sp (fun s => set_spinners (alter f (Z.to_nat index) (spinners s)) s) w.

(** ** DefaultConfig and Create *)

Definition DefaultConfig : Config :=
  {| SuccessColor := Esc.green;
     FailureColor := Esc.red;
     Frequency := 100 * Millisecond |}.

Definition Create (config : Config) : World :=
  let config :=
    if Frequency config =? 0
    then {| SuccessColor := SuccessColor config; FailureColor := FailureColor config;
            Frequency := Frequency DefaultConfig |}
    else config in
  let config :=
    if String.eqb (SuccessColor config) EmptyString
    then {| SuccessColor := SuccessColor DefaultConfig; FailureColor := FailureColor config;
            Frequency := Frequency config |}
    else config in
  let config :=
    if String.eqb (FailureColor config) EmptyString
    then {| SuccessColor := SuccessColor config; FailureColor := FailureColor DefaultConfig;
            Frequency := Frequency config |}
    else config in
  {| sp := {| spinners := [];
              successColor := SuccessColor config;
              failureColor := FailureColor config;
              frequency := Frequency config;
              currentLine := 0;
              activeCount := 0;
              startLine := 0 |};
     loop_i := 0%nat;
     firstRun := true;
     running := true; (* go s.run() *)
     term := [FmtPrint Esc.show_cursor; FmtPrint Esc.reset; FmtPrint Esc.save] |}.

(** ** The run goroutine *)

Definition chars : list string :=
  ["⠋"; "⠙"; "⠹"; "⠸"; "⠼"; "⠴"; "⠦"; "⠧"; "⠇"; "⠏"].

(** [case <-s.stopChan] *)
Definition run_stop (w : World) : World :=
  let w := emit (FmtPrint Esc.show_cursor) w in
  let w := emit (FmtPrint Esc.reset) w in
  {| sp := sp w; loop_i := loop_i w; firstRun := firstRun w;
     running := false; term := term w |}.

(** [case msg := <-s.updateChan] *)
Definition recv (msg : updateMsg) (w : World) : World :=
  if String.eqb (action msg) "start" then
    let w := if activeCount (sp w) =? 0 then emit (FmtPrint Esc.hide_cursor) w else w in
    with_sp (fun s => set_activeCount (activeCount s + 1) s) w
  else if String.eqb (action msg) "stop" || String.eqb (action msg) "error" then
    let w := with_sp (fun s => set_activeCount (activeCount s - 1) s) w in
    if activeCount (sp w) =? 0
    then emit (FmtPrint Esc.reset) (emit (FmtPrint Esc.show_cursor) w)
    else w
  else w.

(** The body of [for _, spinner := range s.spinners] for one record. *)
Definition paint (glyph : string) (w : World) (spinner : spinnerInfo) : World :=
  if active spinner then
    let w := emit (FmtPrint Esc.restore) w in
    let w := if 0 <? lineNum spinner
             then emit (FmtPrint (Sprintf (Esc.ESC +:+ "[%dB") [ArgD (lineNum spinner)])) w
             else w in
    emit (FmtPrint (Sprintf (Esc.clear_line +:+ Esc.reset +:+ "%s %s")
                         [ArgS glyph; ArgS (message spinner)])) w
  else w.

(** [default:] *)
Definition tick (w : World) : World :=
  if 0 <? activeCount (sp w) then
    let w := if firstRun w
             then {| sp := sp w; loop_i := loop_i w; firstRun := false;
                     running := running w; term := term w |}
             else emit (Sleep (frequency (sp w))) w in
    let w := foldl (paint (chars !!! loop_i w)) w (spinners (sp w)) in
    {| sp := sp w; loop_i := ((loop_i w + 1) mod length chars)%nat;
       firstRun := firstRun w; running := running w; term := term w |}
  else w.

(** [s.updateChan <- msg] *)
Definition send (msg : updateMsg) (w : World) : result World :=
  if running w then Ok (recv msg w) else Blocked.

(** ** The control API *)

Definition Register (w : World) : Z * World :=
  let index := len (sp w) in
  let w := with_sp (fun s =>
             set_spinners (spinners s ++
               [{| message := EmptyString; index := index; active := false;
                   lineNum := currentLine s |}]) s) w in
  let w := with_sp (fun s => set_currentLine (currentLine s + 1) s) w in
  (index, w).

Definition Message (index : Z) (message : string) (w : World) : result World :=
  send {| msg_index := index; msg_message := message; action := "update" |} w.

Definition Start (index : Z) (message : string) (w : World) : result World :=
  if len (sp w) <=? index then Ok w
  else
    _ ← at_index (spinners (sp w)) index;
    let w := update_at index (set_message message) w in
    let w := update_at index (set_active true) w in
    send {| msg_index := index; msg_message := message; action := "start" |} w.

(** The lines after the send in [Stop] and [StopWithError]. *)
Definition final_paint (color glyph : string) (spinner : spinnerInfo)
    (message : string) (w : World) : World :=
  let w := emit (FmtPrint Esc.restore) w in
  let w := if 0 <? lineNum spinner
           then emit (FmtPrint (Sprintf (Esc.ESC +:+ "[%dB") [ArgD (lineNum spinner)])) w
           else w in
  let w := emit (FmtPrint (Sprintf (Esc.clear_line +:+ "%s %s" +:+ Esc.reset +:+ Esc.NL)
                                [ArgS (color +:+ glyph +:+ color); ArgS message])) w in
  emit Sync w.

Definition Stop (index : Z) (message : string) (w : World) : result World :=
  if len (sp w) <=? index then Ok w
  else
    spinner ← at_index (spinners (sp w)) index;
    if negb (active spinner) then Ok w
    else
      let w := update_at index (set_active false) w in
      w ← send {| msg_index := index; msg_message := message; action := "stop" |} w;
      Ok (final_paint (successColor (sp w)) "✓" spinner message w).

Definition StopWithError (index : Z) (error : string) (w : World) : result World :=
  if len (sp w) <=? index then Ok w
  else
    spinner ← at_index (spinners (sp w)) index;
    if negb (active spinner) then Ok w
    else
      let w := update_at index (set_active false) w in
      w ← send {| msg_index := index; msg_message := error; action := "error" |} w;
      Ok (final_paint (failureColor (sp w)) "✗" spinner error w).

(** ** Programs over the API and the goroutine *)

(** [run]'s [select] taking the [stopChan] branch; with no [run] left there
    is nobody to take it. *)
Definition terminate (w : World) : result World :=
  if running w then Ok (run_stop w) else Blocked.

(** [run]'s [select] taking the [default] branch, while [run] is alive. *)
Definition step_default (w : World) : World :=
  if running w then tick w else w.

Inductive op : Type :=
  | OpRegister
  | OpMessage (index : Z) (message : string)
  | OpStart (index : Z) (message : string)
  | OpStop (index : Z) (message : string)
  | OpStopWithError (index : Z) (error : string)
  | OpTick
  | OpTerminate.

Definition run_op (o : op) (w : World) : result World :=
  match o with
  | OpRegister => Ok (Register w).2
  | OpMessage i m => Message i m w
  | OpStart i m => Start i m w
  | OpStop i m => Stop i m w
  | OpStopWithError i m => StopWithError i m w
  | OpTick => Ok (step_default w)
  | OpTerminate => terminate w
  end.

Fixpoint run_ops (ops : list op) (w : World) : result World :=
  match ops with
  | [] => Ok w
  | o :: ops' => w' ← run_op o w; run_ops ops' w'
  end.

(** [n] calls of [Register] in a row, with the indices they return. *)
Fixpoint register_n (n : nat) (w : World) : list Z * World :=
  match n with
  | O => ([], w)
  | S k =>
      let '(i, w1) := Register w in
      let '(rest, w2) := register_n k w1 in
      (i :: rest, w2)
  end.

(** The configuration a [Spinner] was created with. *)
Definition config_of (w : World) : Config :=
  {| SuccessColor := successColor (sp w);
     FailureColor := failureColor (sp w);
     Frequency := frequency (sp w) |}.

(** The record a fresh registration appends. *)
Definition fresh_record (i : nat) : spinnerInfo :=
  {| message := EmptyString; index := Z.of_nat i; active := false;
     lineNum := Z.of_nat i |}.

(** The [active] flag of the record at [index], if there is one. *)
Definition active_at (index : Z) (w : World) : option bool :=
  if index <? 0 then None else active <$> spinners (sp w) !! Z.to_nat index.

(** The number of times [e] occurs in a trace. *)
Definition count_effect (e : string) (t : list effect) : nat :=
  length (filter (fun x => x = FmtPrint e) t).

(** ** Sample runs

    The scenario of the README: create with the default configuration,
    register two spinners, start both. *)
Definition ok_or (d : World) (r : result World) : World :=
  match r with
  | Ok w => w
  | _ => d
  end.

Definition two_started : World :=
  ok_or (Create DefaultConfig)
    (run_ops [OpRegister; OpRegister; OpStart 0 "A"; OpStart 1 "B"]
       (Create DefaultConfig)).

(** [Stop] and [StopWithError] differ only in the action they send and in
    the colour and glyph of the final line; this is their common body. *)
Definition stop_like (act color glyph : string) (i : Z) (m : string) (w : World)
    : result World :=
  if len (sp w) <=? i then Ok w
  else
    spinner ← at_index (spinners (sp w)) i;
    if negb (active spinner) then Ok w
    else
      let w := update_at i (set_active false) w in
      w ← send {| msg_index := i; msg_message := m; action := act |} w;
      Ok (final_paint color glyph spinner m w).

(** ** Observations on a world *)

(** The index and the line of every record, in registration order. *)
Definition layout (w : World) : list (Z * Z) :=
  (λ r, (index r, lineNum r)) <$> spinners (sp w).

(** The number of records whose [active] flag is set. *)
Definition count_active (w : World) : Z :=
  Z.of_nat (length (filter (λ r, active r = true) (spinners (sp w)))).

(** The cursor visibility the package has asked for: the last of its own
    hide-cursor and show-cursor writes decides; visible before any write. *)
Definition cursor_step (hidden : bool) (e : effect) : bool :=
  if decide (e = FmtPrint Esc.hide_cursor) then true
  else if decide (e = FmtPrint Esc.show_cursor) then false
  else hidden.

Definition cursor_hidden (t : list effect) : bool := foldl cursor_step false t.

(** The spinner index an operation addresses. *)
Definition target (o : op) : option Z :=
  match o with
  | OpStart i _ | OpStop i _ | OpStopWithError i _ => Some i
  | OpMessage _ _ | OpRegister | OpTick | OpTerminate => None
  end.


(** The run with its [Message] calls taken out. *)
Definition is_message (o : op) : bool :=
  match o with
  | OpMessage _ _ => true
  | _ => false
  end.

Definition without_messages (ops : list op) : list op :=
  filter (λ o, is_message o = false) ops.

(** The last byte of a string. *)
Fixpoint last_char (s : string) : option ascii :=
  match s with
  | EmptyString => None
  | String c EmptyString => Some c
  | String _ rest => last_char rest
  end.

(** Every step that returns is of one of four kinds. *)
Inductive step_kind (o : op) (w w' : World) : Prop :=
  | KQuiet :
      spinners (sp w') = spinners (sp w) →
      activeCount (sp w') = activeCount (sp w) →
      currentLine (sp w') = currentLine (sp w) →
      o ≠ OpRegister →
      step_kind o w w'
  | KRegister :
      o = OpRegister →
      w' = (Register w).2 →
      step_kind o w w'
  | KStart (i : Z) (m : string) (r : spinnerInfo) :
      o = OpStart i m → 0 <= i →
      spinners (sp w) !! Z.to_nat i = Some r →
      running w = true →
      w' = recv {| msg_index := i; msg_message := m; action := "start" |}
             (update_at i (set_active true) (update_at i (set_message m) w)) →
      step_kind o w w'
  | KStop (act c g : string) (i : Z) (m : string) (r : spinnerInfo) :
      (o = OpStop i m ∧ act = "stop") ∨ (o = OpStopWithError i m ∧ act = "error") →
      0 <= i →
      spinners (sp w) !! Z.to_nat i = Some r → active r = true →
      running w = true →
      w' = final_paint c g r m
             (recv {| msg_index := i; msg_message := m; action := act |}
                (update_at i (set_active false) w)) →
      step_kind o w w'.

(** The registry is in order: the next line is the number of records, and
    the record at position [i] has index [i] and line [i]. *)
Definition registry_ok (w : World) : Prop :=
  currentLine (sp w) = len (sp w) ∧
  layout w = (λ i : nat, (Z.of_nat i, Z.of_nat i)) <$> seq 0 (length (spinners (sp w))).

(** * Properties *)

(** ** Frame lemmas: what each step leaves alone *)

Lemma paint_sp g w r : sp (paint g w r) = sp w.
Proof. unfold paint. destruct (active r), (0 <? lineNum r); reflexivity. Qed.

Lemma paint_locals g w r :
  loop_i (paint g w r) = loop_i w ∧ firstRun (paint g w r) = firstRun w ∧
  running (paint g w r) = running w.
Proof. unfold paint. destruct (active r), (0 <? lineNum r); auto. Qed.

Lemma foldl_paint_sp g l : ∀ w, sp (foldl (paint g) w l) = sp w.
Proof.
  induction l as [|r l IH]; intros w; simpl; [reflexivity|].
  rewrite IH. apply paint_sp.
Qed.

Lemma foldl_paint_running g l : ∀ w, running (foldl (paint g) w l) = running w.
Proof.
  induction l as [|r l IH]; intros w; simpl; [reflexivity|].
  rewrite IH. apply paint_locals.
Qed.

Lemma tick_sp w : sp (tick w) = sp w.
Proof.
  unfold tick. destruct (0 <? activeCount (sp w)); [|reflexivity].
  simpl. rewrite foldl_paint_sp. destruct (firstRun w); reflexivity.
Qed.

Lemma tick_running w : running (tick w) = running w.
Proof.
  unfold tick. destruct (0 <? activeCount (sp w)); [|reflexivity].
  simpl. rewrite foldl_paint_running. destruct (firstRun w); reflexivity.
Qed.

(** [chars[i]] stays in range: [i] is reduced modulo [len(chars)] after
    every pass. *)
Lemma tick_loop_i w :
  (loop_i w < length chars)%nat → (loop_i (tick w) < length chars)%nat.
Proof.
  intros H. unfold tick. destruct (0 <? activeCount (sp w)); [|exact H].
  cbn [loop_i]. apply Nat.mod_upper_bound. discriminate.
Qed.

Lemma step_default_sp w : sp (step_default w) = sp w.
Proof. unfold step_default. destruct (running w); [apply tick_sp | reflexivity]. Qed.

Lemma recv_spinners m w : spinners (sp (recv m w)) = spinners (sp w).
Proof.
  unfold recv.
  destruct (String.eqb (action m) "start").
  { destruct (activeCount (sp w) =? 0); reflexivity. }
  destruct (String.eqb (action m) "stop" || String.eqb (action m) "error");
    [|reflexivity].
  match goal with |- context [if ?c then _ else _] => destruct c end; reflexivity.
Qed.

Lemma recv_config m w : config_of (recv m w) = config_of w.
Proof.
  unfold recv.
  destruct (String.eqb (action m) "start").
  { destruct (activeCount (sp w) =? 0); reflexivity. }
  destruct (String.eqb (action m) "stop" || String.eqb (action m) "error");
    [|reflexivity].
  match goal with |- context [if ?c then _ else _] => destruct c end; reflexivity.
Qed.

Lemma recv_running m w : running (recv m w) = running w.
Proof.
  unfold recv.
  destruct (String.eqb (action m) "start").
  { destruct (activeCount (sp w) =? 0); reflexivity. }
  destruct (String.eqb (action m) "stop" || String.eqb (action m) "error");
    [|reflexivity].
  match goal with |- context [if ?c then _ else _] => destruct c end; reflexivity.
Qed.

Lemma final_paint_sp c g r m w : sp (final_paint c g r m w) = sp w.
Proof. unfold final_paint. destruct (0 <? lineNum r); reflexivity. Qed.

Lemma send_inv m w w' : send m w = Ok w' → running w = true ∧ w' = recv m w.
Proof. unfold send. destruct (running w); [|discriminate]. intros [= <-]. auto. Qed.

Lemma at_index_inv l i r :
  at_index l i = Ok r → 0 <= i ∧ l !! Z.to_nat i = Some r.
Proof.
  unfold at_index. destruct (i <? 0) eqn:Hi; [discriminate|].
  destruct (l !! Z.to_nat i) eqn:Hl; [|discriminate].
  intros [= <-]. split; [lia | reflexivity].
Qed.

Lemma at_index_Some l i r :
  0 <= i → l !! Z.to_nat i = Some r → at_index l i = Ok r.
Proof.
  intros Hi Hl. unfold at_index.
  destruct (i <? 0) eqn:E; [lia|]. rewrite Hl. reflexivity.
Qed.

(** Inversion of the three calls that go through the guard, the bounds
    check and the send. *)
Lemma Start_inv i m w w' :
  Start i m w = Ok w' →
  (len (sp w) <= i ∧ w' = w) ∨
  (∃ r, 0 <= i ∧ spinners (sp w) !! Z.to_nat i = Some r ∧ running w = true ∧
        w' = recv {| msg_index := i; msg_message := m; action := "start" |}
               (update_at i (set_active true) (update_at i (set_message m) w))).
Proof.
  unfold Start. destruct (len (sp w) <=? i) eqn:Hlen.
  { intros [= <-]. left. split; [lia | reflexivity]. }
  destruct (at_index (spinners (sp w)) i) as [r| |] eqn:Hat; simpl; try discriminate.
  apply at_index_inv in Hat as [Hi Hr].
  intros Hs. apply send_inv in Hs as [Hrun ->]. right. eauto 6.
Qed.

Lemma Stop_stop_like i m w :
  Stop i m w = stop_like "stop" (successColor (sp w)) "✓" i m w.
Proof.
  unfold Stop, stop_like. destruct (len (sp w) <=? i); [reflexivity|].
  destruct (at_index (spinners (sp w)) i) as [r| |]; simpl; try reflexivity.
  destruct (negb (active r)); [reflexivity|].
  unfold send. simpl. destruct (running w); simpl; [|reflexivity].
  pose proof (recv_config {| msg_index := i; msg_message := m; action := "stop" |}
                (update_at i (set_active false) w)) as Hc.
  apply (f_equal SuccessColor) in Hc. simpl in Hc. rewrite Hc. reflexivity.
Qed.

Lemma StopWithError_stop_like i m w :
  StopWithError i m w = stop_like "error" (failureColor (sp w)) "✗" i m w.
Proof.
  unfold StopWithError, stop_like. destruct (len (sp w) <=? i); [reflexivity|].
  destruct (at_index (spinners (sp w)) i) as [r| |]; simpl; try reflexivity.
  destruct (negb (active r)); [reflexivity|].
  unfold send. simpl. destruct (running w); simpl; [|reflexivity].
  pose proof (recv_config {| msg_index := i; msg_message := m; action := "error" |}
                (update_at i (set_active false) w)) as Hc.
  apply (f_equal FailureColor) in Hc. simpl in Hc. rewrite Hc. reflexivity.
Qed.

Lemma stop_like_inv act c g i m w w' :
  stop_like act c g i m w = Ok w' →
  (len (sp w) <= i ∧ w' = w) ∨
  (∃ r, 0 <= i ∧ spinners (sp w) !! Z.to_nat i = Some r ∧ active r = false ∧ w' = w) ∨
  (∃ r, 0 <= i ∧ spinners (sp w) !! Z.to_nat i = Some r ∧ active r = true ∧
        running w = true ∧
        w' = final_paint c g r m
               (recv {| msg_index := i; msg_message := m; action := act |}
                  (update_at i (set_active false) w))).
Proof.
  unfold stop_like. destruct (len (sp w) <=? i) eqn:Hlen.
  { intros [= <-]. left. split; [lia | reflexivity]. }
  destruct (at_index (spinners (sp w)) i) as [r| |] eqn:Hat; simpl; try discriminate.
  apply at_index_inv in Hat as [Hi Hr].
  destruct (active r) eqn:Ha; simpl.
  - destruct (send _ _) as [w1| |] eqn:Hs; simpl; try discriminate.
    apply send_inv in Hs as [Hrun ->]. intros [= <-].
    right; right. exists r. auto 6.
  - intros [= <-]. right; left. eauto.
Qed.

(** [run] stays alive until it takes the [stopChan] branch. *)
Lemma run_op_running o w w' :
  o ≠ OpTerminate → run_op o w = Ok w' → running w' = running w.
Proof.
  intros Hne. destruct o as [|i m|i m|i m|i m| |]; simpl; try congruence.
  - intros [= <-]. reflexivity.
  - intros H. apply send_inv in H as [_ ->]. apply recv_running.
  - intros H. apply Start_inv in H as [[_ ->] | (r & _ & _ & _ & ->)];
      [reflexivity|]. rewrite recv_running. reflexivity.
  - rewrite Stop_stop_like. intros H. apply stop_like_inv in H
      as [[_ ->] | [(r & _ & _ & _ & ->) | (r & _ & _ & _ & _ & ->)]];
      try reflexivity.
    unfold final_paint. destruct (0 <? lineNum r); simpl;
      rewrite recv_running; reflexivity.
  - rewrite StopWithError_stop_like. intros H. apply stop_like_inv in H
      as [[_ ->] | [(r & _ & _ & _ & ->) | (r & _ & _ & _ & _ & ->)]];
      try reflexivity.
    unfold final_paint. destruct (0 <? lineNum r); simpl;
      rewrite recv_running; reflexivity.
  - intros [= <-]. unfold step_default.
    destruct (running w) eqn:E; [rewrite tick_running|]; exact E.
Qed.

Lemma run_ops_running ops : ∀ w w',
  Forall (λ o, o ≠ OpTerminate) ops → run_ops ops w = Ok w' →
  running w' = running w.
Proof.
  induction ops as [|o ops IH]; intros w w' Hall; simpl.
  - intros [= <-]. reflexivity.
  - apply Forall_cons in Hall as [Ho Hall].
    destruct (run_op o w) as [w1| |] eqn:Hop; simpl; try discriminate.
    intros H. rewrite (IH _ _ Hall H). eapply run_op_running; eassumption.
Qed.

(** ** Registration *)

Lemma register_n_S n w :
  register_n (S n) w
    = (len (sp w) :: (register_n n (Register w).2).1,
       (register_n n (Register w).2).2).
Proof.
  change (register_n (S n) w)
    with (let '(rest, w2) := register_n n (Register w).2 in (len (sp w) :: rest, w2)).
  destruct (register_n n (Register w).2); reflexivity.
Qed.

Lemma register_n_spec n : ∀ w,
  currentLine (sp w) = len (sp w) →
  (register_n n w).1 = Z.of_nat <$> seq (length (spinners (sp w))) n ∧
  spinners (sp (register_n n w).2)
    = spinners (sp w) ++ (fresh_record <$> seq (length (spinners (sp w))) n) ∧
  currentLine (sp (register_n n w).2) = len (sp (register_n n w).2).
Proof.
  induction n as [|n IH]; intros w Hcur.
  - simpl. rewrite app_nil_r. auto.
  - rewrite register_n_S. cbn [fst snd].
    destruct (IH (Register w).2) as (Hids & Hsp & Hcur2).
    { unfold len in *. simpl. rewrite length_app. simpl. lia. }
    assert (Hlen : length (spinners (sp (Register w).2))
                   = S (length (spinners (sp w)))).
    { simpl. rewrite length_app. simpl. lia. }
    rewrite Hlen in Hids, Hsp.
    split; [|split].
    + rewrite Hids. reflexivity.
    + rewrite Hsp. cbn [Register snd with_sp sp set_spinners set_currentLine spinners].
      rewrite <- app_assoc. cbn [seq fmap list_fmap app]. unfold fresh_record at 2.
      rewrite Hcur. reflexivity.
    + exact Hcur2.
Qed.

(** C1: N calls of Register on a freshly created Spinner return the indices
    0, 1, ..., N-1 in call order, and the record at position i carries
    index i and line offset (lineNum) i. *)
Theorem C1_register_indices (config : Config) (N : nat) :
  (register_n N (Create config)).1 = Z.of_nat <$> seq 0 N ∧
  (λ r, (index r, lineNum r)) <$> spinners (sp (register_n N (Create config)).2)
    = (λ i, (Z.of_nat i, Z.of_nat i)) <$> seq 0 N.
Proof.
  destruct (register_n_spec N (Create config)) as (Hids & Hsp & _);
    [reflexivity|].
  split; [exact Hids|].
  rewrite Hsp. simpl. rewrite <- list_fmap_compose. reflexivity.
Qed.

(** ** Formatting *)

Lemma append_assoc (a b c : string) : (a +:+ b) +:+ c = a +:+ b +:+ c.
Proof.
  induction a as [|x a IH]; [reflexivity|].
  change (String x ((a +:+ b) +:+ c) = String x (a +:+ b +:+ c)).
  rewrite IH. reflexivity.
Qed.

Lemma Sprintf_move (n : Z) :
  Sprintf (Esc.ESC +:+ "[%dB") [ArgD n] = Esc.ESC +:+ "[" +:+ pretty n +:+ "B".
Proof. reflexivity. Qed.

Lemma Sprintf_final (marker m : string) :
  Sprintf (Esc.clear_line +:+ "%s %s" +:+ Esc.reset +:+ Esc.NL) [ArgS marker; ArgS m]
  = Esc.clear_line +:+ marker +:+ " " +:+ m +:+ Esc.reset +:+ Esc.NL.
Proof. reflexivity. Qed.

(** ** What a stop writes *)

(** The trace of the final paint, with the formats expanded. *)
Lemma term_final_paint color glyph r m w :
  term (final_paint color glyph r m w)
  = term w
    ++ [FmtPrint Esc.restore]
    ++ (if 0 <? lineNum r
        then [FmtPrint (Esc.ESC +:+ "[" +:+ pretty (lineNum r) +:+ "B")] else [])
    ++ [FmtPrint (Esc.clear_line +:+ color +:+ glyph +:+ color +:+ " " +:+ m
                 +:+ Esc.reset +:+ Esc.NL);
        Sync].
Proof.
  unfold final_paint. rewrite Sprintf_final, Sprintf_move, !append_assoc.
  destruct (0 <? lineNum r); simpl; rewrite <- !app_assoc; reflexivity.
Qed.

(** What [run] writes when it receives a "stop" or an "error". *)
Lemma term_recv_stop act i m w :
  act = "stop" ∨ act = "error" →
  term (recv {| msg_index := i; msg_message := m; action := act |} w)
  = term w ++ (if activeCount (sp w) - 1 =? 0
               then [FmtPrint Esc.show_cursor; FmtPrint Esc.reset] else []).
Proof.
  intros [-> | ->]; unfold recv; simpl;
    destruct (activeCount (sp w) - 1 =? 0); simpl;
    rewrite <- ?app_assoc, ?app_nil_r; reflexivity.
Qed.

Lemma lookup_in_range (w : World) (i : Z) (r : spinnerInfo) :
  0 <= i → spinners (sp w) !! Z.to_nat i = Some r → (len (sp w) <=? i) = false.
Proof.
  intros Hi Hr. apply lookup_lt_Some in Hr. unfold len.
  destruct (Z.of_nat (length (spinners (sp w))) <=? i) eqn:E; [lia | reflexivity].
Qed.

Lemma stop_like_active act c g i m w r :
  running w = true → 0 <= i →
  spinners (sp w) !! Z.to_nat i = Some r → active r = true →
  stop_like act c g i m w
  = Ok (final_paint c g r m
          (recv {| msg_index := i; msg_message := m; action := act |}
             (update_at i (set_active false) w))).
Proof.
  intros Hrun Hi Hr Ha. unfold stop_like.
  rewrite (lookup_in_range w i r Hi Hr), (at_index_Some _ _ _ Hi Hr). simpl.
  rewrite Ha. simpl. unfold send. simpl. rewrite Hrun. reflexivity.
Qed.



(** C10: the final line written by Stop on an active record is
    ESC[K, the success colour, the check mark, the success colour again, a
    space, the caller's message, ESC[0m and a newline: the colour stands on
    both sides of the glyph and the reset comes only after the message.
    StopWithError writes the same line with the failure colour and the cross
    mark.  Each line is followed by the flush and ends the call's output. *)
Theorem C10_final_line_colouring (w : World) (i : Z) (m : string) (r : spinnerInfo) :
  running w = true → 0 <= i →
  spinners (sp w) !! Z.to_nat i = Some r → active r = true →
  (∃ w' pre, Stop i m w = Ok w' ∧
     term w' = pre ++
       [FmtPrint (Esc.ESC +:+ "[K" +:+ successColor (sp w) +:+ "✓" +:+ successColor (sp w)
                 +:+ " " +:+ m +:+ Esc.ESC +:+ "[0m" +:+ Esc.NL);
        Sync]) ∧
  (∃ w' pre, StopWithError i m w = Ok w' ∧
     term w' = pre ++
       [FmtPrint (Esc.ESC +:+ "[K" +:+ failureColor (sp w) +:+ "✗" +:+ failureColor (sp w)
                 +:+ " " +:+ m +:+ Esc.ESC +:+ "[0m" +:+ Esc.NL);
        Sync]).
Proof.
  intros Hrun Hi Hr Ha. split.
  - eexists _, _. split.
    + rewrite Stop_stop_like. apply (stop_like_active _ _ _ _ _ _ r); assumption.
    + rewrite term_final_paint, !app_assoc. reflexivity.
  - eexists _, _. split.
    + rewrite StopWithError_stop_like.
      apply (stop_like_active _ _ _ _ _ _ r); assumption.
    + rewrite term_final_paint, !app_assoc. reflexivity.
Qed.

Lemma C10_final_line_colouring_witness :
  (∃ w' pre, Stop 0 "A done" two_started = Ok w' ∧
     term w' = pre ++
       [FmtPrint (Esc.ESC +:+ "[K" +:+ Esc.ESC +:+ "[32m" +:+ "✓" +:+ Esc.ESC +:+ "[32m"
                 +:+ " A done" +:+ Esc.ESC +:+ "[0m" +:+ Esc.NL);
        Sync]) ∧
  (∃ w' pre, StopWithError 0 "A failed" two_started = Ok w' ∧
     term w' = pre ++
       [FmtPrint (Esc.ESC +:+ "[K" +:+ Esc.ESC +:+ "[31m" +:+ "✗" +:+ Esc.ESC +:+ "[31m"
                 +:+ " A failed" +:+ Esc.ESC +:+ "[0m" +:+ Esc.NL);
        Sync]).
Proof.
  split.
  - apply (C10_final_line_colouring two_started 0 "A done"
             {| message := "A"; index := 0; active := true; lineNum := 0 |});
      [reflexivity | lia | reflexivity | reflexivity].
  - apply (C10_final_line_colouring two_started 0 "A failed"
             {| message := "A"; index := 0; active := true; lineNum := 0 |});
      [reflexivity | lia | reflexivity | reflexivity].
Defined.

(** ** Termination of the render loop *)

(** C8: when run receives the termination signal it writes the show-cursor
    escape ESC[?25h, then the reset escape ESC[0m, and returns; nothing in
    that branch looks at the spinners, so it does the same when no spinner
    was ever started. *)
Theorem C8_terminate_restores_terminal (w : World) :
  running w = true →
  ∃ w', terminate w = Ok w' ∧
    term w' = term w ++ [FmtPrint (Esc.ESC +:+ "[?25h"); FmtPrint (Esc.ESC +:+ "[0m")] ∧
    running w' = false ∧
    sp w' = sp w ∧
    step_default w' = w'.
Proof.
  intros Hrun. exists (run_stop w). unfold terminate. rewrite Hrun.
  split; [reflexivity|]. split.
  - unfold run_stop. simpl. rewrite <- app_assoc. reflexivity.
  - auto.
Qed.

(** Nothing started: only registrations since creation. *)
Lemma C8_terminate_restores_terminal_witness :
  ∃ w', terminate (register_n 2 (Create DefaultConfig)).2 = Ok w' ∧
    term w' = [FmtPrint Esc.show_cursor; FmtPrint Esc.reset; FmtPrint Esc.save;
               FmtPrint Esc.show_cursor; FmtPrint Esc.reset] ∧
    running w' = false.
Proof.
  destruct (C8_terminate_restores_terminal (register_n 2 (Create DefaultConfig)).2)
    as (w' & Hterm & Htrace & Hrun & _); [reflexivity|].
  exists w'. split; [exact Hterm|]. split; [|exact Hrun].
  rewrite Htrace. reflexivity.
Defined.

(** ** Configuration *)

Lemma config_of_sp w w' : sp w' = sp w → config_of w' = config_of w.
Proof. unfold config_of. intros ->. reflexivity. Qed.

Lemma stop_like_config act c g i m w w' :
  stop_like act c g i m w = Ok w' → config_of w' = config_of w.
Proof.
  intros H. apply stop_like_inv in H
    as [[_ ->] | [(r & _ & _ & _ & ->) | (r & _ & _ & _ & _ & ->)]];
    try reflexivity.
  rewrite (config_of_sp _ _ (final_paint_sp _ _ _ _ _)), recv_config. reflexivity.
Qed.

Lemma run_op_config o w w' : run_op o w = Ok w' → config_of w' = config_of w.
Proof.
  destruct o as [|i m|i m|i m|i m| |]; simpl.
  - intros [= <-]. reflexivity.
  - intros H. apply send_inv in H as [_ ->]. apply recv_config.
  - intros H. apply Start_inv in H as [[_ ->] | (r & _ & _ & _ & ->)];
      [reflexivity|]. rewrite recv_config. reflexivity.
  - rewrite Stop_stop_like. apply stop_like_config.
  - rewrite StopWithError_stop_like. apply stop_like_config.
  - intros [= <-]. apply config_of_sp, step_default_sp.
  - unfold terminate. destruct (running w); [|discriminate].
    intros [= <-]. reflexivity.
Qed.

Lemma run_ops_config ops : ∀ w w',
  run_ops ops w = Ok w' → config_of w' = config_of w.
Proof.
  induction ops as [|o ops IH]; intros w w'; simpl.
  - intros [= <-]. reflexivity.
  - destruct (run_op o w) as [w1| |] eqn:Ho; simpl; try discriminate.
    intros H. rewrite (IH _ _ H). eapply run_op_config, Ho.
Qed.

(** C9: Create replaces an empty SuccessColor by green (ESC[32m), an empty
    FailureColor by red (ESC[31m) and a zero Frequency by 100ms, keeps every
    other value as given, and no later operation changes the three fields. *)
Theorem C9_create_defaults (config : Config) :
  (SuccessColor config = EmptyString →
     successColor (sp (Create config)) = Esc.ESC +:+ "[32m") ∧
  (SuccessColor config ≠ EmptyString →
     successColor (sp (Create config)) = SuccessColor config) ∧
  (FailureColor config = EmptyString →
     failureColor (sp (Create config)) = Esc.ESC +:+ "[31m") ∧
  (FailureColor config ≠ EmptyString →
     failureColor (sp (Create config)) = FailureColor config) ∧
  (Frequency config = 0 → frequency (sp (Create config)) = 100 * Millisecond) ∧
  (Frequency config ≠ 0 → frequency (sp (Create config)) = Frequency config) ∧
  (∀ ops w', run_ops ops (Create config) = Ok w' →
     config_of w' = config_of (Create config)).
Proof.
  destruct config as [sc fc fq]. unfold Create. simpl.
  destruct (Z.eqb_spec fq 0) as [Hfq|Hfq]; simpl;
    destruct (String.eqb_spec sc EmptyString) as [Hsc|Hsc]; simpl;
    destruct (String.eqb_spec fc EmptyString) as [Hfc|Hfc]; simpl;
    repeat split; intros; try congruence; try reflexivity;
    match goal with H : run_ops _ _ = Ok _ |- _ => apply run_ops_config in H; exact H
    end.
Qed.

Lemma C9_create_defaults_witness :
  let config := {| SuccessColor := EmptyString; FailureColor := "X"; Frequency := 0 |} in
  successColor (sp (Create config)) = Esc.green ∧
  failureColor (sp (Create config)) = "X" ∧
  frequency (sp (Create config)) = 100000000 ∧
  config_of (ok_or (Create config)
               (run_ops [OpRegister; OpStart 0 "A"; OpTick; OpStop 0 "B"] (Create config)))
  = {| SuccessColor := Esc.green; FailureColor := "X"; Frequency := 100000000 |}.
Proof.
  intros config.
  destruct (C9_create_defaults config) as (Hs & _ & _ & Hf & Hq & _ & Himm).
  split; [apply Hs; reflexivity|].
  split; [apply Hf; discriminate|].
  split; [apply Hq; reflexivity|].
  apply Himm with (ops := [OpRegister; OpStart 0 "A"; OpTick; OpStop 0 "B"]).
  vm_compute. reflexivity.
Defined.

(** ** The active flag of one record *)

Lemma active_at_lookup (w : World) (i : Z) :
  0 <= i → active_at i w = active <$> spinners (sp w) !! Z.to_nat i.
Proof. intros Hi. unfold active_at. destruct (i <? 0) eqn:E; [lia | reflexivity]. Qed.

Lemma active_at_sp (w w' : World) (i : Z) :
  spinners (sp w') = spinners (sp w) → active_at i w' = active_at i w.
Proof. unfold active_at. intros ->. reflexivity. Qed.

(** Writing the flag of record [j] and what it does to record [i]. *)
Lemma active_at_update_active (w : World) (i j : Z) (b : bool) :
  0 <= i → 0 <= j →
  active_at i (update_at j (set_active b) w)
  = if decide (i = j) then (λ _, b) <$> active_at i w else active_at i w.
Proof.
  intros Hi Hj. rewrite !active_at_lookup by assumption. simpl.
  destruct (decide (i = j)) as [->|Hne].
  - rewrite list_lookup_alter_eq.
    destruct (spinners (sp w) !! Z.to_nat j); reflexivity.
  - rewrite list_lookup_alter_ne by lia. reflexivity.
Qed.

Lemma active_at_update_message (w : World) (i j : Z) (m : string) :
  0 <= i → 0 <= j →
  active_at i (update_at j (set_message m) w) = active_at i w.
Proof.
  intros Hi Hj. rewrite !active_at_lookup by assumption. simpl.
  destruct (decide (Z.to_nat j = Z.to_nat i)) as [->|Hne].
  - rewrite list_lookup_alter_eq.
    destruct (spinners (sp w) !! Z.to_nat i); reflexivity.
  - rewrite list_lookup_alter_ne by assumption. reflexivity.
Qed.

Lemma active_at_recv m w i : active_at i (recv m w) = active_at i w.
Proof. apply active_at_sp, recv_spinners. Qed.

Lemma active_at_final_paint c g r m w i :
  active_at i (final_paint c g r m w) = active_at i w.
Proof. apply active_at_sp. rewrite final_paint_sp. reflexivity. Qed.

Lemma active_at_Register (w : World) (i : Z) (b : bool) :
  active_at i w = Some b → active_at i (Register w).2 = Some b.
Proof.
  unfold active_at. destruct (i <? 0); [discriminate|]. simpl.
  destruct (spinners (sp w) !! Z.to_nat i) as [r|] eqn:Hr; [|discriminate].
  intros H. rewrite lookup_app_l by (eapply lookup_lt_Some, Hr).
  rewrite Hr. exact H.
Qed.

(** A stop leaves the addressed record inactive whenever it returns. *)
Lemma stop_like_inactive act c g i m w w' :
  0 <= i → is_Some (spinners (sp w) !! Z.to_nat i) →
  stop_like act c g i m w = Ok w' → active_at i w' = Some false.
Proof.
  intros Hi [r0 Hr0] H. apply stop_like_inv in H
    as [[Hlen ->] | [(r & _ & Hr & Ha & ->) | (r & _ & Hr & Ha & _ & ->)]].
  - apply lookup_lt_Some in Hr0. unfold len in Hlen. lia.
  - rewrite active_at_lookup, Hr by assumption. simpl. rewrite Ha. reflexivity.
  - rewrite active_at_final_paint, active_at_recv,
      active_at_update_active, active_at_lookup, Hr by assumption.
    destruct (decide (i = i)); [reflexivity | congruence].
Qed.

(** A stop on any index never turns an inactive record active. *)
Lemma stop_like_keeps_inactive act c g i j m w w' :
  0 <= i → active_at i w = Some false →
  stop_like act c g j m w = Ok w' → active_at i w' = Some false.
Proof.
  intros Hi Hina H. apply stop_like_inv in H
    as [[_ ->] | [(r & _ & _ & _ & ->) | (r & Hj & Hr & Ha & _ & ->)]];
    try assumption.
  rewrite active_at_final_paint, active_at_recv,
    active_at_update_active, Hina by assumption.
  destruct (decide (i = j)); reflexivity.
Qed.

(** Every step except [Start] on the record's own index keeps an inactive
    record inactive. *)
Lemma run_op_keeps_inactive o w w' i :
  0 <= i → (∀ m, o ≠ OpStart i m) →
  active_at i w = Some false → run_op o w = Ok w' → active_at i w' = Some false.
Proof.
  intros Hi Hns Hina. destruct o as [|j m|j m|j m|j m| |]; simpl.
  - intros [= <-]. apply active_at_Register, Hina.
  - intros H. apply send_inv in H as [_ ->]. rewrite active_at_recv. exact Hina.
  - intros H. apply Start_inv in H as [[_ ->] | (r & Hj & _ & _ & ->)];
      [exact Hina|].
    assert (i ≠ j) as Hne by (intros ->; eapply Hns; reflexivity).
    rewrite active_at_recv, active_at_update_active by assumption.
    destruct (decide (i = j)); [contradiction|].
    rewrite active_at_update_message by assumption. exact Hina.
  - rewrite Stop_stop_like. apply stop_like_keeps_inactive; assumption.
  - rewrite StopWithError_stop_like. apply stop_like_keeps_inactive; assumption.
  - intros [= <-]. rewrite (active_at_sp w); [exact Hina|].
    rewrite step_default_sp. reflexivity.
  - unfold terminate. destruct (running w); [|discriminate].
    intros [= <-]. exact Hina.
Qed.

Lemma run_ops_keeps_inactive ops i : ∀ w w',
  0 <= i → Forall (λ o, ∀ m, o ≠ OpStart i m) ops →
  active_at i w = Some false → run_ops ops w = Ok w' → active_at i w' = Some false.
Proof.
  induction ops as [|o ops IH]; intros w w' Hi Hall Hina; simpl.
  - intros [= <-]. exact Hina.
  - apply Forall_cons in Hall as [Ho Hall].
    destruct (run_op o w) as [w1| |] eqn:Hop; simpl; try discriminate.
    apply IH; try assumption.
    eapply run_op_keeps_inactive; eassumption.
Qed.

(** [Start] on a registered index sets the flag, whatever it was. *)
Lemma Start_activates i m w :
  running w = true → 0 <= i → is_Some (spinners (sp w) !! Z.to_nat i) →
  ∃ w', Start i m w = Ok w' ∧ active_at i w' = Some true.
Proof.
  intros Hrun Hi [r Hr]. eexists. split.
  - unfold Start. rewrite (lookup_in_range w i r Hi Hr), (at_index_Some _ _ _ Hi Hr).
    simpl. unfold send. simpl. rewrite Hrun. reflexivity.
  - rewrite active_at_recv, active_at_update_active by assumption.
    destruct (decide (i = i)); [|congruence].
    rewrite active_at_update_message, active_at_lookup, Hr by assumption.
    reflexivity.
Qed.

(** C7 as stated fails: with one spinner registered and started, Stop makes
    it inactive and a later Start on the same index makes it active again,
    so the stopped state is not terminal. *)
Lemma C7_stopped_not_terminal :
  ¬ (∀ (before after : list op) (i : Z) (m : string) (w1 w2 w3 : World),
       run_ops before (Create DefaultConfig) = Ok w1 →
       active_at i w1 = Some true →
       Stop i m w1 = Ok w2 →
       run_ops after w2 = Ok w3 →
       active_at i w3 ≠ Some true).
Proof.
  intros H.
  pose (w1 := ok_or (Create DefaultConfig)
                (run_ops [OpRegister; OpStart 0 "A"] (Create DefaultConfig))).
  pose (w2 := ok_or w1 (Stop 0 "A done" w1)).
  pose (w3 := ok_or w2 (run_ops [OpStart 0 "again"] w2)).
  apply (H [OpRegister; OpStart 0 "A"] [OpStart 0 "again"] 0 "A done" w1 w2 w3);
    vm_compute; reflexivity.
Qed.

(** C7, amended: a record is created inactive, Stop and StopWithError leave
    it inactive, and it then stays inactive under every later operation
    except a Start on its own index; such a Start makes it active again. *)
Theorem C7_inactive_until_started_again (w : World) (i : Z) :
  0 <= i → is_Some (spinners (sp w) !! Z.to_nat i) →
  (∀ m w', Stop i m w = Ok w' ∨ StopWithError i m w = Ok w' →
     active_at i w' = Some false) ∧
  (active_at i w = Some false →
     ∀ ops w', Forall (λ o, ∀ m, o ≠ OpStart i m) ops →
       run_ops ops w = Ok w' → active_at i w' = Some false) ∧
  (running w = true →
     ∀ m, ∃ w', Start i m w = Ok w' ∧ active_at i w' = Some true) ∧
  active_at (len (sp w)) (Register w).2 = Some false.
Proof.
  intros Hi Hreg. split; [|split; [|split]].
  - intros m w' [H | H].
    + rewrite Stop_stop_like in H. eapply stop_like_inactive; eassumption.
    + rewrite StopWithError_stop_like in H. eapply stop_like_inactive; eassumption.
  - intros Hina ops w' Hall Hrun.
    eapply run_ops_keeps_inactive; eassumption.
  - intros Hrun m. apply Start_activates; assumption.
  - rewrite active_at_lookup by (unfold len; lia). unfold len. simpl.
    rewrite Nat2Z.id, lookup_app_r by lia. rewrite Nat.sub_diag. reflexivity.
Qed.

Lemma C7_inactive_until_started_again_witness :
  let w := ok_or two_started (Stop 0 "A done" two_started) in
  active_at 0 w = Some false ∧
  active_at 0 (ok_or w (run_ops [OpRegister; OpMessage 0 "x"; OpStart 1 "B";
                                 OpStop 0 "y"; OpTick; OpStopWithError 1 "z"] w))
    = Some false ∧
  (∃ w', Start 0 "again" w = Ok w' ∧ active_at 0 w' = Some true).
Proof.
  intros w.
  destruct (C7_inactive_until_started_again two_started 0) as (Hstop & _ & _ & _);
    [lia | eexists; reflexivity |].
  destruct (C7_inactive_until_started_again w 0) as (_ & Hkeep & Hstart & _);
    [lia | eexists; reflexivity |].
  assert (Hina : active_at 0 w = Some false).
  { apply (Hstop "A done"). left. vm_compute. reflexivity. }
  split; [exact Hina|]. split.
  - apply Hkeep with (ops := [OpRegister; OpMessage 0 "x"; OpStart 1 "B";
                               OpStop 0 "y"; OpTick; OpStopWithError 1 "z"]).
    + exact Hina.
    + repeat constructor; intros m; discriminate.
    + vm_compute. reflexivity.
  - apply Hstart. reflexivity.
Defined.

(** ** Guards of Start, Stop and StopWithError *)

(** An index at or beyond the number of registered spinners is absorbed. *)
Lemma Start_beyond_len_noop i m w : len (sp w) <= i → Start i m w = Ok w.
Proof.
  intros H. unfold Start. destruct (len (sp w) <=? i) eqn:E; [reflexivity | lia].
Qed.

Lemma stop_like_beyond_len_noop act c g i m w :
  len (sp w) <= i → stop_like act c g i m w = Ok w.
Proof.
  intros H. unfold stop_like.
  destruct (len (sp w) <=? i) eqn:E; [reflexivity | lia].
Qed.

Lemma stop_like_inactive_noop act c g i m w r :
  0 <= i → spinners (sp w) !! Z.to_nat i = Some r → active r = false →
  stop_like act c g i m w = Ok w.
Proof.
  intros Hi Hr Ha. unfold stop_like.
  rewrite (lookup_in_range w i r Hi Hr), (at_index_Some _ _ _ Hi Hr). simpl.
  rewrite Ha. reflexivity.
Qed.

(** Stop and StopWithError return at once, with nothing changed and nothing
    sent or written, for an index at or beyond the length and for an
    inactive record. *)
Lemma Stop_absorbed i m w :
  len (sp w) <= i ∨
  (0 <= i ∧ ∃ r, spinners (sp w) !! Z.to_nat i = Some r ∧ active r = false) →
  Stop i m w = Ok w ∧ StopWithError i m w = Ok w.
Proof.
  rewrite Stop_stop_like, StopWithError_stop_like.
  intros [Hlen | (Hi & r & Hr & Ha)].
  - split; apply stop_like_beyond_len_noop; assumption.
  - split; apply (stop_like_inactive_noop _ _ _ _ _ _ r); assumption.
Qed.

(** A negative index passes the guard [index >= len(s.spinners)] and reaches
    the slice access. *)
Lemma at_index_negative l i : i < 0 → at_index l i = Panic.
Proof. intros H. unfold at_index. destruct (i <? 0) eqn:E; [reflexivity | lia]. Qed.

Lemma Start_negative_panics i m w : i < 0 → Start i m w = Panic.
Proof.
  intros H. unfold Start, len.
  destruct (Z.leb_spec (Z.of_nat (length (spinners (sp w)))) i) as [E|E]; [lia|].
  rewrite at_index_negative by assumption. reflexivity.
Qed.

Lemma stop_like_negative_panics act c g i m w :
  i < 0 → stop_like act c g i m w = Panic.
Proof.
  intros H. unfold stop_like, len.
  destruct (Z.leb_spec (Z.of_nat (length (spinners (sp w)))) i) as [E|E]; [lia|].
  rewrite at_index_negative by assumption. reflexivity.
Qed.

(** C2: the claim includes negative indices, and there the code does not
    hold it: Start with index -1 passes the upper-bound guard and panics on
    the slice access, on a fresh Spinner and on one with two spinners. *)
Theorem C2_start_negative_index_panics :
  Start (-1) "x" (Create DefaultConfig) = Panic ∧
  Start (-1) "x" two_started = Panic.
Proof. split; apply Start_negative_panics; lia. Qed.

(** C5: the same guard is the only range check of Stop and StopWithError, so
    index -1, which is out of range, panics instead of being absorbed. *)
Theorem C5_stop_negative_index_panics :
  Stop (-1) "x" two_started = Panic ∧
  StopWithError (-1) "x" two_started = Panic.
Proof.
  rewrite Stop_stop_like, StopWithError_stop_like.
  split; apply stop_like_negative_panics; lia.
Qed.

(** ** Message *)

(** [run] has no case for the "update" action, so the event changes
    nothing. *)
Lemma Message_changes_nothing i m w : running w = true → Message i m w = Ok w.
Proof. intros H. unfold Message, send. rewrite H. reflexivity. Qed.

(** C3: after Message(0, "Almost done") on a started spinner the record
    still holds the message given to Start, and the next repaint of its
    line writes that old message. *)
Theorem C3_message_update_is_dropped :
  ∃ w, run_ops [OpMessage 0 "Almost done"; OpTick] two_started = Ok w ∧
    message <$> spinners (sp w) = ["A"; "B"] ∧
    active <$> spinners (sp w) = [true; true] ∧
    term w = term two_started
      ++ [FmtPrint Esc.restore;
          FmtPrint (Esc.clear_line +:+ Esc.reset +:+ "⠋ A");
          FmtPrint Esc.restore;
          FmtPrint (Esc.ESC +:+ "[1B");
          FmtPrint (Esc.clear_line +:+ Esc.reset +:+ "⠋ B")].
Proof. eexists. split; [vm_compute; reflexivity|]. vm_compute. auto. Qed.

(** ** activeCount *)

(** C4: two Starts on the same spinner count twice.  After Start, Start,
    Stop, Stop on one spinner the second Stop is absorbed, activeCount is
    left at 1 with no record active, and the cursor, hidden once, is never
    shown again (the only show-cursor in the trace is the one Create
    writes). *)
Theorem C4_repeated_start_counts_twice :
  ∃ w, run_ops [OpRegister; OpStart 0 "A"; OpStart 0 "A";
                OpStop 0 "done"; OpStop 0 "done"] (Create DefaultConfig) = Ok w ∧
    activeCount (sp w) = 1 ∧
    active <$> spinners (sp w) = [false] ∧
    count_effect Esc.hide_cursor (term w) = 1%nat ∧
    count_effect Esc.show_cursor (term w) = 1%nat ∧
    count_effect Esc.show_cursor (term (Create DefaultConfig)) = 1%nat.
Proof. eexists. split; [vm_compute; reflexivity|]. vm_compute. auto. Qed.

(** * Further properties of the package *)

(** ** What one step does to the shared Spinner *)

Lemma recv_sp m w :
  sp (recv m w) = set_activeCount (activeCount (sp (recv m w))) (sp w).
Proof.
  unfold recv.
  destruct (String.eqb (action m) "start").
  { destruct (activeCount (sp w) =? 0); destruct w as [[] ? ? ? ?]; reflexivity. }
  destruct (String.eqb (action m) "stop" || String.eqb (action m) "error");
    [|destruct w as [[] ? ? ? ?]; reflexivity].
  match goal with |- context [if ?c then _ else _] => destruct c end;
    destruct w as [[] ? ? ? ?]; reflexivity.
Qed.

Lemma recv_start_count i m w :
  activeCount (sp (recv {| msg_index := i; msg_message := m; action := "start" |} w))
  = activeCount (sp w) + 1.
Proof. unfold recv. simpl. destruct (activeCount (sp w) =? 0); reflexivity. Qed.

Lemma recv_stop_count act i m w :
  act = "stop" ∨ act = "error" →
  activeCount (sp (recv {| msg_index := i; msg_message := m; action := act |} w))
  = activeCount (sp w) - 1.
Proof.
  intros [-> | ->]; unfold recv; simpl;
    destruct (activeCount (sp w) - 1 =? 0); reflexivity.
Qed.

Lemma recv_currentLine m w : currentLine (sp (recv m w)) = currentLine (sp w).
Proof. rewrite recv_sp. reflexivity. Qed.

Lemma run_op_kind o w w' : run_op o w = Ok w' → step_kind o w w'.
Proof.
  destruct o as [|i m|i m|i m|i m| |]; simpl.
  - intros [= <-]. apply KRegister; reflexivity.
  - intros H. apply send_inv in H as [_ ->].
    apply KQuiet; [reflexivity..|discriminate].
  - intros H. apply Start_inv in H as [[_ ->] | (r & Hi & Hr & Hrun & ->)].
    + apply KQuiet; [reflexivity..|discriminate].
    + eapply KStart; eauto.
  - rewrite Stop_stop_like. intros H. apply stop_like_inv in H
      as [[_ ->] | [(r & _ & _ & _ & ->) | (r & Hi & Hr & Ha & Hrun & ->)]].
    + apply KQuiet; [reflexivity..|discriminate].
    + apply KQuiet; [reflexivity..|discriminate].
    + eapply (KStop _ _ _ "stop"); eauto.
  - rewrite StopWithError_stop_like. intros H. apply stop_like_inv in H
      as [[_ ->] | [(r & _ & _ & _ & ->) | (r & Hi & Hr & Ha & Hrun & ->)]].
    + apply KQuiet; [reflexivity..|discriminate].
    + apply KQuiet; [reflexivity..|discriminate].
    + eapply (KStop _ _ _ "error"); eauto.
  - intros [= <-]. apply KQuiet; [rewrite step_default_sp; reflexivity..|discriminate].
  - unfold terminate. destruct (running w); [|discriminate]. intros [= <-].
    apply KQuiet; [reflexivity..|discriminate].
Qed.

(** A property kept by every step is kept by every run. *)
Section Invariant.
Variable P : World → Prop.
Hypothesis step : ∀ o w w', P w → run_op o w = Ok w' → P w'.

Lemma run_ops_invariant ops : ∀ w w', P w → run_ops ops w = Ok w' → P w'.
Proof.
  induction ops as [|o ops IH]; intros w w' Hw; simpl.
  - intros [= <-]. exact Hw.
  - destruct (run_op o w) as [w1| |] eqn:Hop; simpl; try discriminate.
    apply IH. eapply step; eassumption.
Qed.
End Invariant.

(** ** The registry *)

Lemma layout_update_at i f w :
  (∀ r, index (f r) = index r ∧ lineNum (f r) = lineNum r) →
  layout (update_at i f w) = layout w.
Proof.
  intros Hf. unfold layout. simpl.
  rewrite (list_fmap_alter _ f (λ x, x)).
  - apply list_alter_id. reflexivity.
  - apply Forall_forall. intros r _. destruct (Hf r) as [-> ->]. reflexivity.
Qed.

Lemma layout_spinners w w' :
  spinners (sp w') = spinners (sp w) → layout w' = layout w.
Proof. unfold layout. intros ->. reflexivity. Qed.

Lemma layout_Register w :
  layout (Register w).2 = layout w ++ [(len (sp w), currentLine (sp w))].
Proof. unfold layout. simpl. rewrite fmap_app. reflexivity. Qed.

(** A step either appends one record or leaves every index and line as it
    was. *)
Lemma run_op_layout o w w' :
  run_op o w = Ok w' →
  (layout w' = layout w ∧ currentLine (sp w') = currentLine (sp w)) ∨
  (layout w' = layout w ++ [(len (sp w), currentLine (sp w))] ∧
   currentLine (sp w') = currentLine (sp w) + 1).
Proof.
  intros H. apply run_op_kind in H.
  destruct H as [Hs _ Hc _ | -> -> | i m r _ _ _ _ -> | act c g i m r _ _ _ _ _ ->].
  - left. split; [apply layout_spinners, Hs | exact Hc].
  - right. split; [apply layout_Register | reflexivity].
  - left. split; [|rewrite recv_currentLine; reflexivity].
    rewrite (layout_spinners _ _ (recv_spinners _ _)).
    rewrite !layout_update_at; [reflexivity | intros; split; reflexivity..].
  - left. split.
    + rewrite (layout_spinners (recv {| msg_index := i; msg_message := m; action := act |}
                                  (update_at i (set_active false) w)))
        by (rewrite final_paint_sp; reflexivity).
      rewrite (layout_spinners _ _ (recv_spinners _ _)).
      apply layout_update_at. intros; split; reflexivity.
    + rewrite final_paint_sp, recv_currentLine. reflexivity.
Qed.

Lemma length_layout w : length (layout w) = length (spinners (sp w)).
Proof. unfold layout. apply length_fmap. Qed.

Lemma registry_ok_step o w w' : registry_ok w → run_op o w = Ok w' → registry_ok w'.
Proof.
  intros [Hcur Hlay] H. apply run_op_layout in H as [[Hl Hc] | [Hl Hc]].
  - assert (Hlen : length (spinners (sp w')) = length (spinners (sp w)))
      by (rewrite <- !length_layout, Hl; reflexivity).
    split.
    + unfold len in *. rewrite Hc, Hcur, Hlen. reflexivity.
    + rewrite Hl, Hlen. exact Hlay.
  - assert (Hlen : length (spinners (sp w')) = S (length (spinners (sp w)))).
    { rewrite <- !length_layout, Hl, length_app. simpl. lia. }
    split.
    + unfold len in *. rewrite Hc, Hcur, Hlen. lia.
    + rewrite Hl, Hlen, seq_S, fmap_app, <- Hlay, Hcur. reflexivity.
Qed.

(** X1: in every world reached from Create by any run of the operations,
    the record at position i carries index i and line i, and the next line
    to hand out is the number of records; so Register always returns the
    position of the record it appends, and no two records share a line. *)
Theorem registry_in_order (config : Config) (ops : list op) (w : World) :
  run_ops ops (Create config) = Ok w →
  currentLine (sp w) = len (sp w) ∧
  (∀ (i : nat) r, spinners (sp w) !! i = Some r →
     index r = Z.of_nat i ∧ lineNum r = Z.of_nat i) ∧
  (∀ (i j : nat) ri rj, spinners (sp w) !! i = Some ri →
     spinners (sp w) !! j = Some rj → i ≠ j → lineNum ri ≠ lineNum rj).
Proof.
  intros Hrun.
  assert (Hok : registry_ok w).
  { apply (run_ops_invariant registry_ok registry_ok_step ops (Create config));
      [split; reflexivity | exact Hrun]. }
  destruct Hok as [Hcur Hlay].
  assert (Hrec : ∀ (i : nat) r, spinners (sp w) !! i = Some r →
                   index r = Z.of_nat i ∧ lineNum r = Z.of_nat i).
  { intros i r Hr.
    assert (Hl : layout w !! i = Some (index r, lineNum r))
      by (unfold layout; rewrite list_lookup_fmap, Hr; reflexivity).
    rewrite Hlay, list_lookup_fmap in Hl.
    destruct (seq 0 (length (spinners (sp w))) !! i) as [k|] eqn:Hk; [|discriminate].
    apply lookup_seq in Hk as [-> _]. simpl in Hl.
    injection Hl as -> ->. split; reflexivity. }
  split; [exact Hcur|]. split; [exact Hrec|].
  intros i j ri rj Hi Hj Hne.
  destruct (Hrec i ri Hi) as [_ ->]. destruct (Hrec j rj Hj) as [_ ->]. lia.
Qed.

Lemma registry_in_order_witness :
  let w := ok_or two_started
             (run_ops [OpStop 0 "A done"; OpRegister; OpTick; OpStart 2 "C"] two_started) in
  currentLine (sp w) = 3 ∧ layout w = [(0, 0); (1, 1); (2, 2)].
Proof.
  intros w.
  destruct (registry_in_order DefaultConfig
              [OpRegister; OpRegister; OpStart 0 "A"; OpStart 1 "B";
               OpStop 0 "A done"; OpRegister; OpTick; OpStart 2 "C"] w)
    as (Hcur & _ & _); [vm_compute; reflexivity|].
  split; [rewrite Hcur|]; vm_compute; reflexivity.
Defined.

(** X2: the registry only grows at its end: after any run from any world
    the old records are still there in the same order with the same index
    and line. *)
Theorem registry_append_only (ops : list op) (w w' : World) :
  run_ops ops w = Ok w' → layout w `prefix_of` layout w'.
Proof.
  apply (run_ops_invariant (λ x, layout w `prefix_of` layout x)); [|reflexivity].
  intros o w1 w2 Hpre H. apply run_op_layout in H as [[-> _] | [-> _]].
  - exact Hpre.
  - apply prefix_app_r, Hpre.
Qed.

Lemma registry_append_only_witness :
  layout two_started `prefix_of`
    layout (ok_or two_started
              (run_ops [OpStop 1 "B done"; OpRegister; OpStart 0 "again"] two_started)).
Proof.
  apply (registry_append_only [OpStop 1 "B done"; OpRegister; OpStart 0 "again"]).
  vm_compute. reflexivity.
Defined.

(** ** activeCount and the active records *)

Lemma count_filter_alter (f : spinnerInfo → spinnerInfo) (l : list spinnerInfo) :
  ∀ (i : nat) r, l !! i = Some r →
  Z.of_nat (length (filter (λ x, active x = true) (alter f i l)))
  = Z.of_nat (length (filter (λ x, active x = true) l))
    - Z.b2z (active r) + Z.b2z (active (f r)).
Proof.
  induction l as [|a l IH]; intros [|i] r Hr; try discriminate.
  - injection Hr as ->. simpl. rewrite !filter_cons.
    destruct (decide (active (f r) = true)) as [->|Hf],
             (decide (active r = true)) as [->|Hr];
      try apply not_true_is_false in Hf; try apply not_true_is_false in Hr;
      rewrite ?Hf, ?Hr; simpl; lia.
  - simpl in Hr. specialize (IH i r Hr).
    change (alter f (S i) (a :: l)) with (a :: alter f i l).
    rewrite !filter_cons. destruct (decide (active a = true)); simpl length; lia.
Qed.

Lemma count_active_update_at i f w r :
  0 <= i → spinners (sp w) !! Z.to_nat i = Some r →
  count_active (update_at i f w)
  = count_active w - Z.b2z (active r) + Z.b2z (active (f r)).
Proof. intros _ Hr. unfold count_active. simpl. apply count_filter_alter, Hr. Qed.

Lemma count_active_spinners w w' :
  spinners (sp w') = spinners (sp w) → count_active w' = count_active w.
Proof. unfold count_active. intros ->. reflexivity. Qed.

Lemma count_active_Register w : count_active (Register w).2 = count_active w.
Proof.
  unfold count_active. simpl. rewrite filter_app, length_app.
  rewrite filter_cons. simpl. destruct (decide (false = true)); [discriminate|].
  simpl. lia.
Qed.

Lemma lookup_update_at_eq i f w r :
  spinners (sp w) !! Z.to_nat i = Some r →
  spinners (sp (update_at i f w)) !! Z.to_nat i = Some (f r).
Proof. intros Hr. simpl. rewrite list_lookup_alter_eq, Hr. reflexivity. Qed.

(** What one step does to the counter and to the number of active records:
    both move by the same amount, except that a Start on a record that is
    already active moves only the counter. *)
Lemma run_op_counts o w w' :
  run_op o w = Ok w' →
  ∃ d, activeCount (sp w') = activeCount (sp w) + d ∧
       (count_active w' = count_active w + d ∨
        (count_active w' = count_active w ∧ d = 1 ∧
         ∃ i m, o = OpStart i m ∧ active_at i w = Some true)).
Proof.
  intros H. apply run_op_kind in H.
  destruct H as [Hs Ha _ _ | -> -> | i m r -> Hi Hr _ -> | act c g i m r Ho Hi Hr Hact _ ->].
  - exists 0. split; [lia|]. left. rewrite (count_active_spinners _ _ Hs). lia.
  - exists 0. split; [simpl; lia|]. left. rewrite count_active_Register. lia.
  - exists 1. split; [rewrite recv_start_count; reflexivity|].
    rewrite (count_active_spinners _ _ (recv_spinners _ _)).
    rewrite (count_active_update_at i (set_active true) _ (set_message m r) Hi)
      by (apply lookup_update_at_eq, Hr).
    rewrite (count_active_update_at i (set_message m) w r Hi Hr). simpl.
    destruct (active r) eqn:Ha; simpl.
    + right. split; [lia|]. split; [reflexivity|]. exists i, m.
      split; [reflexivity|]. rewrite active_at_lookup, Hr by assumption.
      simpl. rewrite Ha. reflexivity.
    + left. lia.
  - exists (-1). split.
    + rewrite final_paint_sp, recv_stop_count by (destruct Ho as [[_ ->]|[_ ->]]; auto).
      reflexivity.
    + left.
      rewrite (count_active_spinners
                 (recv {| msg_index := i; msg_message := m; action := act |}
                    (update_at i (set_active false) w)))
        by (rewrite final_paint_sp; reflexivity).
      rewrite (count_active_spinners _ _ (recv_spinners _ _)).
      rewrite (count_active_update_at i (set_active false) w r Hi Hr), Hact.
      simpl. lia.
Qed.







(** ** Cursor visibility *)

Lemma last_char_snoc (s : string) (c : ascii) :
  last_char (s +:+ String c EmptyString) = Some c.
Proof.
  induction s as [|a s IH]; [reflexivity|].
  destruct s as [|b s]; [reflexivity|]. exact IH.
Qed.

(** The cursor-move escape ends in B, so it is neither hide nor show nor
    restore. *)
Lemma move_escape_last (n : Z) :
  last_char (Esc.ESC +:+ "[" +:+ pretty n +:+ "B") = Some "B"%char.
Proof.
  rewrite <- (append_assoc "[" (pretty n) "B"), <- append_assoc.
  apply last_char_snoc.
Qed.

Lemma cursor_hidden_snoc t e :
  cursor_hidden (t ++ [e]) = cursor_step (cursor_hidden t) e.
Proof. unfold cursor_hidden. apply foldl_snoc. Qed.

Lemma cursor_step_other h e :
  e ≠ FmtPrint Esc.hide_cursor → e ≠ FmtPrint Esc.show_cursor →
  cursor_step h e = h.
Proof.
  intros H1 H2. unfold cursor_step.
  destruct (decide (e = FmtPrint Esc.hide_cursor)); [contradiction|].
  destruct (decide (e = FmtPrint Esc.show_cursor)); [contradiction|]. reflexivity.
Qed.

Lemma cursor_step_move h (n : Z) :
  cursor_step h (FmtPrint (Esc.ESC +:+ "[" +:+ pretty n +:+ "B")) = h.
Proof.
  apply cursor_step_other; intros H;
    apply (f_equal (λ e, match e with FmtPrint s => last_char s | _ => None end)) in H;
    rewrite move_escape_last in H; discriminate.
Qed.

Lemma cursor_step_clear h s :
  cursor_step h (FmtPrint (Esc.clear_line +:+ s)) = h.
Proof. apply cursor_step_other; intros [= H]; discriminate. Qed.

Lemma cursor_hidden_emit_paint glyph w r :
  cursor_hidden (term (paint glyph w r)) = cursor_hidden (term w).
Proof.
  unfold paint. destruct (active r); [|reflexivity].
  change (Sprintf (Esc.clear_line +:+ Esc.reset +:+ "%s %s")
            [ArgS glyph; ArgS (message r)])
    with (Esc.clear_line +:+ Esc.reset +:+ glyph +:+ String " " (message r +:+ EmptyString)).
  rewrite Sprintf_move.
  destruct (0 <? lineNum r); simpl term;
    rewrite !cursor_hidden_snoc, cursor_step_clear, ?cursor_step_move; reflexivity.
Qed.

Lemma cursor_hidden_foldl_paint glyph l : ∀ w,
  cursor_hidden (term (foldl (paint glyph) w l)) = cursor_hidden (term w).
Proof.
  induction l as [|r l IH]; intros w; simpl; [reflexivity|].
  rewrite IH. apply cursor_hidden_emit_paint.
Qed.

Lemma cursor_hidden_tick w : cursor_hidden (term (tick w)) = cursor_hidden (term w).
Proof.
  unfold tick. destruct (0 <? activeCount (sp w)); [|reflexivity].
  cbn [term]. rewrite cursor_hidden_foldl_paint.
  destruct (firstRun w); [reflexivity|].
  simpl term. rewrite cursor_hidden_snoc. reflexivity.
Qed.

Lemma cursor_hidden_app t es :
  cursor_hidden (t ++ es) = foldl cursor_step (cursor_hidden t) es.
Proof. unfold cursor_hidden. apply foldl_app. Qed.

Lemma cursor_step_restore h : cursor_step h (FmtPrint Esc.restore) = h.
Proof. apply cursor_step_other; discriminate. Qed.

Lemma cursor_step_reset h : cursor_step h (FmtPrint Esc.reset) = h.
Proof. apply cursor_step_other; discriminate. Qed.

Lemma cursor_step_show h : cursor_step h (FmtPrint Esc.show_cursor) = false.
Proof. reflexivity. Qed.

Lemma cursor_step_hide h : cursor_step h (FmtPrint Esc.hide_cursor) = true.
Proof. reflexivity. Qed.

Lemma cursor_step_Sync h : cursor_step h Sync = h.
Proof. apply cursor_step_other; discriminate. Qed.

Lemma cursor_hidden_final_paint c g r m w :
  cursor_hidden (term (final_paint c g r m w)) = cursor_hidden (term w).
Proof.
  rewrite term_final_paint, cursor_hidden_app.
  destruct (0 <? lineNum r); cbn [foldl app];
    rewrite cursor_step_restore, ?cursor_step_move, cursor_step_clear,
      cursor_step_Sync; reflexivity.
Qed.

Lemma term_recv_start i m w :
  term (recv {| msg_index := i; msg_message := m; action := "start" |} w)
  = term w ++ (if activeCount (sp w) =? 0 then [FmtPrint Esc.hide_cursor] else []).
Proof.
  unfold recv. simpl. destruct (activeCount (sp w) =? 0); simpl;
    rewrite ?app_nil_r; reflexivity.
Qed.

(** An active record is counted. *)
Lemma count_active_pos i w r :
  0 <= i → spinners (sp w) !! Z.to_nat i = Some r → active r = true →
  1 <= count_active w.
Proof.
  intros Hi Hr Ha.
  pose proof (count_active_update_at i (set_active false) w r Hi Hr) as H.
  rewrite Ha in H. simpl in H.
  assert (0 <= count_active (update_at i (set_active false) w))
    by (unfold count_active; lia).
  lia.
Qed.

(** The invariant behind the next theorem. *)
Lemma cursor_invariant_step o w w' :
  count_active w <= activeCount (sp w) ∧
  cursor_hidden (term w) = running w && (0 <? activeCount (sp w)) →
  run_op o w = Ok w' →
  count_active w' <= activeCount (sp w') ∧
  cursor_hidden (term w') = running w' && (0 <? activeCount (sp w')).
Proof.
  intros [Hle Hcur] H. split.
  { apply run_op_counts in H as (d & Ha & [Hc | (Hc & -> & _)]); lia. }
  assert (0 <= count_active w) as Hnn by (unfold count_active; lia).
  destruct o as [|i m|i m|i m|i m| |]; simpl in H.
  - injection H as <-. exact Hcur.
  - apply send_inv in H as [_ ->]. exact Hcur.
  - apply Start_inv in H as [[_ ->] | (r & Hi & Hr & Hrun & ->)]; [exact Hcur|].
    rewrite term_recv_start, recv_start_count, recv_running. simpl.
    rewrite Hrun in *. simpl in *.
    destruct (Z.eqb_spec (activeCount (sp w)) 0) as [E|E].
    + rewrite cursor_hidden_snoc, cursor_step_hide, E. reflexivity.
    + rewrite app_nil_r, Hcur.
      destruct (Z.ltb_spec 0 (activeCount (sp w))),
               (Z.ltb_spec 0 (activeCount (sp w) + 1)); try reflexivity; lia.
  - rewrite Stop_stop_like in H. apply stop_like_inv in H
      as [[_ ->] | [(r & _ & _ & _ & ->) | (r & Hi & Hr & Ha & Hrun & ->)]];
      try exact Hcur.
    pose proof (count_active_pos i w r Hi Hr Ha) as Hpos.
    rewrite cursor_hidden_final_paint, final_paint_sp.
    rewrite term_recv_stop, recv_stop_count by auto.
    assert (running (final_paint (successColor (sp w)) "✓" r m
                       (recv {| msg_index := i; msg_message := m; action := "stop" |}
                          (update_at i (set_active false) w))) = true) as ->.
    { unfold final_paint. destruct (0 <? lineNum r); simpl;
        rewrite recv_running; exact Hrun. }
    simpl. rewrite Hrun in Hcur. simpl in Hcur.
    destruct (Z.eqb_spec (activeCount (sp w) - 1) 0) as [E|E].
    + rewrite cursor_hidden_app. cbn [foldl].
      rewrite cursor_step_show, cursor_step_reset, E. reflexivity.
    + rewrite app_nil_r. simpl term. rewrite Hcur.
      destruct (Z.ltb_spec 0 (activeCount (sp w))),
               (Z.ltb_spec 0 (activeCount (sp w) - 1)); try reflexivity; lia.
  - rewrite StopWithError_stop_like in H. apply stop_like_inv in H
      as [[_ ->] | [(r & _ & _ & _ & ->) | (r & Hi & Hr & Ha & Hrun & ->)]];
      try exact Hcur.
    pose proof (count_active_pos i w r Hi Hr Ha) as Hpos.
    rewrite cursor_hidden_final_paint, final_paint_sp.
    rewrite term_recv_stop, recv_stop_count by auto.
    assert (running (final_paint (failureColor (sp w)) "✗" r m
                       (recv {| msg_index := i; msg_message := m; action := "error" |}
                          (update_at i (set_active false) w))) = true) as ->.
    { unfold final_paint. destruct (0 <? lineNum r); simpl;
        rewrite recv_running; exact Hrun. }
    simpl. rewrite Hrun in Hcur. simpl in Hcur.
    destruct (Z.eqb_spec (activeCount (sp w) - 1) 0) as [E|E].
    + rewrite cursor_hidden_app. cbn [foldl].
      rewrite cursor_step_show, cursor_step_reset, E. reflexivity.
    + rewrite app_nil_r. simpl term. rewrite Hcur.
      destruct (Z.ltb_spec 0 (activeCount (sp w))),
               (Z.ltb_spec 0 (activeCount (sp w) - 1)); try reflexivity; lia.
  - injection H as <-. unfold step_default.
    destruct (running w) eqn:Hrun; [|rewrite Hrun; exact Hcur].
    rewrite cursor_hidden_tick, tick_running, tick_sp, Hrun. exact Hcur.
  - unfold terminate in H. destruct (running w); [|discriminate].
    injection H as <-. unfold run_stop. simpl.
    rewrite !cursor_hidden_snoc, cursor_step_reset, cursor_step_show. reflexivity.
Qed.

Lemma cursor_run (config : Config) (ops : list op) (w : World) :
  run_ops ops (Create config) = Ok w →
  cursor_hidden (term w) = running w && (0 <? activeCount (sp w)).
Proof.
  intros Hrun.
  apply (run_ops_invariant _ cursor_invariant_step ops (Create config));
    [|exact Hrun].
  split; reflexivity.
Qed.

(** X5: in every world reached from Create, the cursor state the package
    has last written is "hidden" exactly when run is alive and activeCount
    is positive; once run has taken the stop branch the cursor is shown and
    stays shown. *)
Theorem cursor_tracks_active_count (config : Config) (ops : list op) (w : World) :
  run_ops ops (Create config) = Ok w →
  cursor_hidden (term w) = running w && (0 <? activeCount (sp w)).
Proof. apply cursor_run. Qed.

Lemma cursor_tracks_active_count_witness :
  cursor_hidden (term two_started) = true ∧
  cursor_hidden (term (ok_or two_started
                         (run_ops [OpStop 0 "A done"; OpTick; OpStopWithError 1 "B failed"]
                            two_started))) = false.
Proof.
  split.
  - rewrite (cursor_tracks_active_count DefaultConfig
               [OpRegister; OpRegister; OpStart 0 "A"; OpStart 1 "B"] two_started);
      vm_compute; reflexivity.
  - rewrite (cursor_tracks_active_count DefaultConfig
               [OpRegister; OpRegister; OpStart 0 "A"; OpStart 1 "B";
                OpStop 0 "A done"; OpTick; OpStopWithError 1 "B failed"]);
      vm_compute; reflexivity.
Defined.

(** ** Index bounds and redundant calls *)

(** X6: an index at or beyond the number of registered spinners is absorbed
    by Start, Stop and StopWithError: the call returns with the world as it
    was, without sending an event or writing, whether or not run is still
    alive. *)
Theorem index_beyond_len_absorbed (w : World) (i : Z) (m : string) :
  len (sp w) <= i →
  Start i m w = Ok w ∧ Stop i m w = Ok w ∧ StopWithError i m w = Ok w.
Proof.
  intros H. split; [apply Start_beyond_len_noop, H|].
  apply Stop_absorbed. left. exact H.
Qed.

Lemma index_beyond_len_absorbed_witness :
  Start 2 "x" two_started = Ok two_started ∧
  Stop 2 "x" two_started = Ok two_started ∧
  StopWithError 2 "x" two_started = Ok two_started.
Proof. apply (index_beyond_len_absorbed two_started 2 "x"). vm_compute. discriminate. Defined.

(** X7: a negative index is not absorbed: it passes the only guard and the
    slice access panics, for Start, Stop and StopWithError alike and in
    every world. *)
Theorem negative_index_panics (w : World) (i : Z) (m : string) :
  i < 0 →
  Start i m w = Panic ∧ Stop i m w = Panic ∧ StopWithError i m w = Panic.
Proof.
  intros H. rewrite Stop_stop_like, StopWithError_stop_like.
  split; [apply Start_negative_panics, H|].
  split; apply stop_like_negative_panics, H.
Qed.

Lemma negative_index_panics_witness :
  Start (-3) "x" (Create DefaultConfig) = Panic ∧
  Stop (-3) "x" (Create DefaultConfig) = Panic ∧
  StopWithError (-3) "x" (Create DefaultConfig) = Panic.
Proof. apply (negative_index_panics (Create DefaultConfig) (-3) "x"). lia. Defined.

(** X8: Stop and StopWithError on a record that is not active return with
    the world as it was: nothing is sent, counted or written. *)
Theorem stop_inactive_absorbed (w : World) (i : Z) (m : string) (r : spinnerInfo) :
  0 <= i → spinners (sp w) !! Z.to_nat i = Some r → active r = false →
  Stop i m w = Ok w ∧ StopWithError i m w = Ok w.
Proof. intros Hi Hr Ha. apply Stop_absorbed. right. eauto. Qed.

Lemma stop_inactive_absorbed_witness :
  let w := (register_n 1 (Create DefaultConfig)).2 in
  Stop 0 "x" w = Ok w ∧ StopWithError 0 "x" w = Ok w.
Proof.
  intros w.
  apply (stop_inactive_absorbed w 0 "x" (fresh_record 0)); [lia | reflexivity..].
Defined.

(** Message never touches the world and never looks at its index: with run
    alive it returns with nothing changed, for any index and text, and with
    run gone the send never completes. *)
Lemma Message_is_inert (w : World) (i : Z) (m : string) :
  Message i m w = if running w then Ok w else Blocked.
Proof. unfold Message, send. destruct (running w); reflexivity. Qed.

(** X9: Message calls have no effect on anything: if a run of operations
    returns, the same run with every Message call deleted returns the very
    same world (records, counters and terminal output), whatever indices and
    texts the Message calls carried. *)
Theorem messages_can_be_erased (ops : list op) (w w' : World) :
  run_ops ops w = Ok w' → run_ops (without_messages ops) w = Ok w'.
Proof.
  revert w. induction ops as [|o ops IH]; intros w; [auto|].
  simpl. destruct (run_op o w) as [w1| |] eqn:Hop; simpl; try discriminate.
  intros Hrest. unfold without_messages. rewrite filter_cons.
  destruct (decide (is_message o = false)) as [Hno|Hmsg].
  - simpl. rewrite Hop. simpl. apply IH, Hrest.
  - destruct o as [|i m|i m|i m|i m| |]; try (destruct Hmsg; reflexivity).
    simpl in Hop. rewrite Message_is_inert in Hop.
    destruct (running w); [|discriminate]. injection Hop as <-.
    apply IH, Hrest.
Qed.

Lemma messages_can_be_erased_witness :
  without_messages [OpMessage 0 "x"; OpStop 0 "A done"; OpMessage (-7) "y"; OpTick;
                    OpMessage 5 "z"]
  = [OpStop 0 "A done"; OpTick] ∧
  run_ops [OpStop 0 "A done"; OpTick] two_started
  = run_ops [OpMessage 0 "x"; OpStop 0 "A done"; OpMessage (-7) "y"; OpTick;
             OpMessage 5 "z"] two_started.
Proof.
  split; [reflexivity|].
  pose proof (messages_can_be_erased
                [OpMessage 0 "x"; OpStop 0 "A done"; OpMessage (-7) "y"; OpTick;
                 OpMessage 5 "z"] two_started
                (ok_or two_started (run_ops [OpStop 0 "A done"; OpTick] two_started)))
    as H.
  change (without_messages _) with [OpStop 0 "A done"; OpTick] in H.
  rewrite H; vm_compute; reflexivity.
Defined.

Lemma Start_registered i m w r :
  running w = true → 0 <= i → spinners (sp w) !! Z.to_nat i = Some r →
  Start i m w
  = Ok (recv {| msg_index := i; msg_message := m; action := "start" |}
          (update_at i (set_active true) (update_at i (set_message m) w))).
Proof.
  intros Hrun Hi Hr. unfold Start.
  rewrite (lookup_in_range w i r Hi Hr), (at_index_Some _ _ _ Hi Hr).
  simpl. unfold send. simpl. rewrite Hrun. reflexivity.
Qed.

(** X10: once run has returned, every call that has an event to deliver
    blocks for ever: Start on a registered index, and Stop and StopWithError
    on an active record. *)
Theorem calls_block_after_exit (w : World) (i : Z) (m : string) (r : spinnerInfo) :
  running w = false → 0 <= i → spinners (sp w) !! Z.to_nat i = Some r →
  Start i m w = Blocked ∧
  (active r = true → Stop i m w = Blocked ∧ StopWithError i m w = Blocked).
Proof.
  intros Hrun Hi Hr. split.
  - unfold Start. rewrite (lookup_in_range w i r Hi Hr), (at_index_Some _ _ _ Hi Hr).
    simpl. unfold send. simpl. rewrite Hrun. reflexivity.
  - intros Ha. rewrite Stop_stop_like, StopWithError_stop_like. unfold stop_like.
    rewrite (lookup_in_range w i r Hi Hr), (at_index_Some _ _ _ Hi Hr).
    simpl. rewrite Ha. simpl. unfold send. simpl. rewrite Hrun. split; reflexivity.
Qed.

Lemma calls_block_after_exit_witness :
  let w := ok_or two_started (terminate two_started) in
  Start 0 "x" w = Blocked ∧ Stop 0 "x" w = Blocked ∧ StopWithError 0 "x" w = Blocked.
Proof.
  intros w.
  destruct (calls_block_after_exit w 0 "x"
              {| message := "A"; index := 0; active := true; lineNum := 0 |})
    as [Hs Hstop]; [reflexivity | lia | reflexivity |].
  split; [exact Hs|]. apply Hstop. reflexivity.
Defined.

Lemma stop_like_then_inactive act c g i m w w' :
  stop_like act c g i m w = Ok w' →
  len (sp w') <= i ∨
  (0 <= i ∧ ∃ r, spinners (sp w') !! Z.to_nat i = Some r ∧ active r = false).
Proof.
  intros H. apply stop_like_inv in H
    as [[Hlen ->] | [(r & Hi & Hr & Ha & ->) | (r & Hi & Hr & Ha & _ & ->)]].
  - left. exact Hlen.
  - right. eauto.
  - right. split; [exact Hi|]. exists (set_active false r). split; [|reflexivity].
    rewrite final_paint_sp, recv_spinners. apply lookup_update_at_eq, Hr.
Qed.

(** X11: a stop is idempotent: after a Stop or StopWithError that returned,
    a second Stop or StopWithError on the same index changes nothing and
    writes nothing. *)
Theorem stop_twice_is_stop_once (w w' : World) (i : Z) (m m' : string) :
  Stop i m w = Ok w' ∨ StopWithError i m w = Ok w' →
  Stop i m' w' = Ok w' ∧ StopWithError i m' w' = Ok w'.
Proof.
  rewrite Stop_stop_like, StopWithError_stop_like.
  intros [H | H]; apply Stop_absorbed; eapply stop_like_then_inactive; exact H.
Qed.

Lemma stop_twice_is_stop_once_witness :
  let w' := ok_or two_started (Stop 1 "B done" two_started) in
  Stop 1 "again" w' = Ok w' ∧ StopWithError 1 "again" w' = Ok w'.
Proof.
  intros w'.
  apply (stop_twice_is_stop_once two_started w' 1 "B done" "again").
  left. vm_compute. reflexivity.
Defined.

(** ** Start followed by Stop *)

Lemma alter_three (l : list spinnerInfo) (n : nat) (r : spinnerInfo) (m : string) :
  l !! n = Some r → active r = false →
  alter (set_active false) n (alter (set_active true) n (alter (set_message m) n l))
  = <[n := set_message m r]> l.
Proof.
  intros Hr Ha. apply list_eq. intros j.
  destruct (decide (n = j)) as [<-|Hne].
  - rewrite !list_lookup_alter_eq, Hr.
    rewrite list_lookup_insert_eq by (eapply lookup_lt_Some, Hr).
    simpl. unfold set_active, set_message. simpl. rewrite <- Ha at 1.
    destruct r; reflexivity.
  - rewrite !list_lookup_alter_ne, list_lookup_insert_ne by assumption. reflexivity.
Qed.

(** X12: Start on an inactive registered record followed by Stop on it
    leaves activeCount and the configuration as they were and every record
    as it was, except that the record keeps the message given to Start; the
    message given to Stop is only printed, never stored. *)
Theorem start_then_stop (w : World) (i : Z) (m m' : string) (r : spinnerInfo) :
  running w = true → 0 <= i →
  spinners (sp w) !! Z.to_nat i = Some r → active r = false →
  ∃ w1 w2, Start i m w = Ok w1 ∧ Stop i m' w1 = Ok w2 ∧
    spinners (sp w2) = <[Z.to_nat i := set_message m r]> (spinners (sp w)) ∧
    activeCount (sp w2) = activeCount (sp w) ∧
    currentLine (sp w2) = currentLine (sp w) ∧
    config_of w2 = config_of w.
Proof.
  intros Hrun Hi Hr Ha.
  set (w1 := recv {| msg_index := i; msg_message := m; action := "start" |}
               (update_at i (set_active true) (update_at i (set_message m) w))).
  assert (Hr1 : spinners (sp w1) !! Z.to_nat i = Some (set_active true (set_message m r))).
  { unfold w1. rewrite recv_spinners.
    apply lookup_update_at_eq, lookup_update_at_eq, Hr. }
  assert (Hrun1 : running w1 = true) by (unfold w1; rewrite recv_running; exact Hrun).
  exists w1. eexists. split; [apply (Start_registered _ _ _ r); assumption|].
  split.
  { rewrite Stop_stop_like.
    apply (stop_like_active _ _ _ _ _ _ (set_active true (set_message m r)));
      [assumption..|reflexivity]. }
  assert (Hsp1 : spinners (sp w1)
                 = alter (set_active true) (Z.to_nat i)
                     (alter (set_message m) (Z.to_nat i) (spinners (sp w))))
    by (unfold w1; rewrite recv_spinners; reflexivity).
  assert (Hac1 : activeCount (sp w1) = activeCount (sp w) + 1)
    by (unfold w1; rewrite recv_start_count; reflexivity).
  assert (Hcl1 : currentLine (sp w1) = currentLine (sp w))
    by (unfold w1; rewrite recv_currentLine; reflexivity).
  assert (Hcf1 : config_of w1 = config_of w)
    by (unfold w1; rewrite recv_config; reflexivity).
  clearbody w1.
  rewrite final_paint_sp. split; [|split; [|split]].
  - rewrite recv_spinners.
    change (spinners (sp (update_at i (set_active false) w1)))
      with (alter (set_active false) (Z.to_nat i) (spinners (sp w1))).
    rewrite Hsp1. apply alter_three; assumption.
  - rewrite recv_stop_count by auto.
    change (activeCount (sp (update_at i (set_active false) w1)))
      with (activeCount (sp w1)).
    lia.
  - rewrite recv_currentLine. exact Hcl1.
  - rewrite (config_of_sp _ _ (final_paint_sp _ _ _ _ _)), recv_config.
    exact Hcf1.
Qed.

Lemma start_then_stop_witness :
  let w := (register_n 2 (Create DefaultConfig)).2 in
  ∃ w1 w2, Start 1 "working" w = Ok w1 ∧ Stop 1 "done" w1 = Ok w2 ∧
    message <$> spinners (sp w2) = [EmptyString; "working"] ∧
    active <$> spinners (sp w2) = [false; false] ∧
    activeCount (sp w2) = 0.
Proof.
  intros w.
  destruct (start_then_stop w 1 "working" "done" (fresh_record 1))
    as (w1 & w2 & H1 & H2 & Hs & Ha & _); [reflexivity | lia | reflexivity..|].
  exists w1, w2. split; [exact H1|]. split; [exact H2|].
  rewrite Hs, Ha. vm_compute. auto.
Defined.

(** ** Isolation between spinners *)

Lemma run_op_other_record o w w' (j : nat) (r : spinnerInfo) :
  target o ≠ Some (Z.of_nat j) →
  run_op o w = Ok w' →
  spinners (sp w) !! j = Some r → spinners (sp w') !! j = Some r.
Proof.
  intros Ht H Hr. apply run_op_kind in H.
  destruct H as [Hs _ _ _ | -> -> | i m r0 -> Hi _ _ -> | act c g i m r0 Ho Hi _ _ _ ->].
  - rewrite Hs. exact Hr.
  - simpl. rewrite lookup_app_l by (eapply lookup_lt_Some, Hr). exact Hr.
  - assert (Z.to_nat i ≠ j) by (intros <-; apply Ht; simpl; f_equal; lia).
    rewrite recv_spinners. simpl. rewrite !list_lookup_alter_ne by assumption.
    exact Hr.
  - assert (Z.to_nat i ≠ j).
    { intros <-. apply Ht. destruct Ho as [[-> _] | [-> _]]; simpl; f_equal; lia. }
    rewrite final_paint_sp, recv_spinners. simpl.
    rewrite list_lookup_alter_ne by assumption. exact Hr.
Qed.

(** X13: a record is changed only by calls that address its own index: a
    run of operations none of which is a Start, Stop or StopWithError on
    index j leaves record j exactly as it was (message, flag, index and
    line), whatever happens to the other spinners. *)
Theorem other_spinners_do_not_interfere (ops : list op) (w w' : World)
    (j : nat) (r : spinnerInfo) :
  Forall (λ o, target o ≠ Some (Z.of_nat j)) ops →
  run_ops ops w = Ok w' →
  spinners (sp w) !! j = Some r → spinners (sp w') !! j = Some r.
Proof.
  revert w. induction ops as [|o ops IH]; intros w Hall; simpl.
  - intros [= <-] Hr. exact Hr.
  - apply Forall_cons in Hall as [Ho Hall].
    destruct (run_op o w) as [w1| |] eqn:Hop; simpl; try discriminate.
    intros Hrun Hr. apply (IH w1 Hall Hrun).
    eapply run_op_other_record; eassumption.
Qed.

Lemma other_spinners_do_not_interfere_witness :
  spinners (sp (ok_or two_started
                  (run_ops [OpStop 1 "B done"; OpRegister; OpMessage 0 "x"; OpTick;
                            OpStart 2 "C"; OpStart 1 "B again"] two_started)))
    !! 0%nat
  = Some {| message := "A"; index := 0; active := true; lineNum := 0 |}.
Proof.
  apply (other_spinners_do_not_interfere
           [OpStop 1 "B done"; OpRegister; OpMessage 0 "x"; OpTick;
            OpStart 2 "C"; OpStart 1 "B again"] two_started).
  - repeat constructor; discriminate.
  - vm_compute. reflexivity.
  - reflexivity.
Defined.

(** ** Create *)

(** X14: whatever Config is passed, the Spinner Create returns has a
    non-zero frequency and non-empty colours, and passing the resulting
    configuration to Create again gives the same configuration. *)
Theorem Create_normalises_config (config : Config) :
  frequency (sp (Create config)) ≠ 0 ∧
  successColor (sp (Create config)) ≠ EmptyString ∧
  failureColor (sp (Create config)) ≠ EmptyString ∧
  config_of (Create (config_of (Create config))) = config_of (Create config).
Proof.
  destruct config as [sc fc fq]. unfold Create, config_of. simpl.
  destruct (Z.eqb_spec fq 0) as [Hfq|Hfq]; simpl;
    destruct (String.eqb_spec sc EmptyString) as [Hsc|Hsc]; simpl;
    destruct (String.eqb_spec fc EmptyString) as [Hfc|Hfc]; simpl;
    repeat split; try assumption; try discriminate;
    repeat match goal with
      | |- context [?a =? 0] =>
          destruct (Z.eqb_spec a 0); [congruence || discriminate|]; simpl
      | |- context [String.eqb ?a EmptyString] =>
          destruct (String.eqb_spec a EmptyString); [congruence || discriminate|]; simpl
      end; reflexivity.
Qed.

(** ** The repaint pass *)

Lemma count_effect_snoc e t x :
  count_effect e (t ++ [x])
  = (count_effect e t + (if decide (x = FmtPrint e) then 1 else 0))%nat.
Proof.
  unfold count_effect. rewrite filter_app, length_app, filter_cons.
  destruct (decide (x = FmtPrint e)); reflexivity.
Qed.

Lemma count_effect_snoc_other e t x :
  x ≠ FmtPrint e → count_effect e (t ++ [x]) = count_effect e t.
Proof.
  intros H. rewrite count_effect_snoc.
  destruct (decide (x = FmtPrint e)); [contradiction | lia].
Qed.

Lemma count_effect_snoc_same e t :
  count_effect e (t ++ [FmtPrint e]) = S (count_effect e t).
Proof.
  rewrite count_effect_snoc.
  destruct (decide (FmtPrint e = FmtPrint e)); [lia | congruence].
Qed.

Lemma move_is_not_restore (n : Z) :
  FmtPrint (Esc.ESC +:+ "[" +:+ pretty n +:+ "B") ≠ FmtPrint Esc.restore.
Proof.
  intros H.
  apply (f_equal (λ e, match e with FmtPrint s => last_char s | _ => None end)) in H.
  rewrite move_escape_last in H. discriminate.
Qed.

Lemma count_restore_paint glyph w r :
  count_effect Esc.restore (term (paint glyph w r))
  = (count_effect Esc.restore (term w) + (if active r then 1 else 0))%nat.
Proof.
  unfold paint. destruct (active r); [|lia].
  change (Sprintf (Esc.clear_line +:+ Esc.reset +:+ "%s %s")
            [ArgS glyph; ArgS (message r)])
    with (Esc.clear_line +:+ Esc.reset +:+ glyph +:+ String " " (message r +:+ EmptyString)).
  rewrite Sprintf_move.
  destruct (0 <? lineNum r); simpl term.
  - rewrite count_effect_snoc_other by discriminate.
    rewrite count_effect_snoc_other by apply move_is_not_restore.
    rewrite count_effect_snoc_same. lia.
  - rewrite count_effect_snoc_other by discriminate.
    rewrite count_effect_snoc_same. lia.
Qed.

Lemma count_restore_foldl_paint glyph l : ∀ w,
  count_effect Esc.restore (term (foldl (paint glyph) w l))
  = (count_effect Esc.restore (term w)
     + length (filter (λ x, active x = true) l))%nat.
Proof.
  induction l as [|r l IH]; intros w; simpl; [lia|].
  rewrite IH, count_restore_paint, filter_cons.
  destruct (active r); destruct (decide _); try discriminate; try congruence;
    simpl; lia.
Qed.

Lemma foldl_paint_locals glyph l : ∀ w,
  loop_i (foldl (paint glyph) w l) = loop_i w ∧
  firstRun (foldl (paint glyph) w l) = firstRun w.
Proof.
  induction l as [|r l IH]; intros w; simpl; [auto|].
  destruct (IH (paint glyph w r)) as [-> ->].
  destruct (paint_locals glyph w r) as (-> & -> & _). auto.
Qed.

(** X15: the default branch of run.  With activeCount at zero or below it
    does nothing at all.  With activeCount positive it leaves the Spinner
    untouched, restores the cursor to the anchor exactly once for every
    active record (inactive records are skipped), advances the glyph index
    by one modulo the number of glyphs, and clears firstRun. *)
Theorem repaint_pass (w : World) :
  (activeCount (sp w) <= 0 → tick w = w) ∧
  (0 < activeCount (sp w) →
     sp (tick w) = sp w ∧
     Z.of_nat (count_effect Esc.restore (term (tick w)))
       = Z.of_nat (count_effect Esc.restore (term w)) + count_active w ∧
     loop_i (tick w) = ((loop_i w + 1) mod 10)%nat ∧
     firstRun (tick w) = false).
Proof.
  split.
  - intros H. unfold tick. destruct (Z.ltb_spec 0 (activeCount (sp w))); [lia|reflexivity].
  - intros H. split; [apply tick_sp|]. unfold tick.
    destruct (Z.ltb_spec 0 (activeCount (sp w))); [|lia].
    cbn [term loop_i firstRun].
    rewrite count_restore_foldl_paint.
    match goal with |- context [foldl ?f ?a ?l] =>
      destruct (foldl_paint_locals (chars !!! loop_i a) l a) as [Hi Hf];
      rewrite Hi, Hf; clear Hi Hf end.
    unfold count_active.
    destruct (firstRun w) eqn:Hfr; cbn [term sp loop_i firstRun emit].
    + split; [lia|]. split; reflexivity.
    + rewrite count_effect_snoc_other by discriminate.
      split; [lia|]. split; [reflexivity | exact Hfr].
Qed.

Lemma repaint_pass_witness :
  tick (Create DefaultConfig) = Create DefaultConfig ∧
  count_effect Esc.restore (term (tick two_started)) = 2%nat ∧
  loop_i (tick two_started) = 1%nat.
Proof.
  destruct (repaint_pass (Create DefaultConfig)) as [Hidle _].
  destruct (repaint_pass two_started) as [_ Hbusy].
  split; [apply Hidle; vm_compute; discriminate|].
  destruct Hbusy as (_ & Hcount & Hi & _); [reflexivity|].
  split; [|rewrite Hi; reflexivity].
  apply Nat2Z.inj. rewrite Hcount. vm_compute. reflexivity.
Defined.

(** ** The glyph index *)

Lemma recv_loop_i m w : loop_i (recv m w) = loop_i w.
Proof.
  unfold recv.
  destruct (String.eqb (action m) "start").
  { destruct (activeCount (sp w) =? 0); reflexivity. }
  destruct (String.eqb (action m) "stop" || String.eqb (action m) "error");
    [|reflexivity].
  match goal with |- context [if ?c then _ else _] => destruct c end; reflexivity.
Qed.

Lemma final_paint_loop_i c g r m w : loop_i (final_paint c g r m w) = loop_i w.
Proof. unfold final_paint. destruct (0 <? lineNum r); reflexivity. Qed.

(** Only the default branch of run moves the glyph index. *)
Lemma run_op_loop_i o w w' :
  o ≠ OpTick → run_op o w = Ok w' → loop_i w' = loop_i w.
Proof.
  intros Hne. destruct o as [|i m|i m|i m|i m| |]; simpl; try congruence.
  - intros [= <-]. reflexivity.
  - intros H. apply send_inv in H as [_ ->]. apply recv_loop_i.
  - intros H. apply Start_inv in H as [[_ ->] | (r & _ & _ & _ & ->)];
      [reflexivity|]. rewrite recv_loop_i. reflexivity.
  - rewrite Stop_stop_like. intros H. apply stop_like_inv in H
      as [[_ ->] | [(r & _ & _ & _ & ->) | (r & _ & _ & _ & _ & ->)]];
      try reflexivity.
    rewrite final_paint_loop_i, recv_loop_i. reflexivity.
  - rewrite StopWithError_stop_like. intros H. apply stop_like_inv in H
      as [[_ ->] | [(r & _ & _ & _ & ->) | (r & _ & _ & _ & _ & ->)]];
      try reflexivity.
    rewrite final_paint_loop_i, recv_loop_i. reflexivity.
  - unfold terminate. destruct (running w); [|discriminate].
    intros [= <-]. reflexivity.
Qed.

(** X16: in every world reached from Create the glyph index of run is below
    the number of glyphs, so the slice access [chars[i]] of the repaint
    never goes out of range. *)
Theorem glyph_index_in_range (config : Config) (ops : list op) (w : World) :
  run_ops ops (Create config) = Ok w →
  (loop_i w < length chars)%nat ∧ is_Some (chars !! loop_i w).
Proof.
  intros Hrun.
  assert (H : (loop_i w < length chars)%nat).
  { revert Hrun.
    apply (run_ops_invariant (λ x, (loop_i x < length chars)%nat)); [|simpl; lia].
    intros o w1 w2 Hlt Hop.
    assert (o = OpTick ∨ o ≠ OpTick) as [->|Hne]
      by (destruct o; (left; reflexivity) || (right; discriminate)).
    - injection Hop as <-. unfold step_default.
      destruct (running w1); [apply tick_loop_i|]; exact Hlt.
    - rewrite (run_op_loop_i o w1 w2 Hne Hop). exact Hlt. }
  split; [exact H | apply lookup_lt_is_Some_2, H].
Qed.

Lemma glyph_index_in_range_witness :
  (loop_i (ok_or two_started (run_ops (replicate 12 OpTick) two_started))
   < length chars)%nat.
Proof.
  apply (glyph_index_in_range DefaultConfig
           ([OpRegister; OpRegister; OpStart 0 "A"; OpStart 1 "B"]
              ++ replicate 12 OpTick)).
  vm_compute. reflexivity.
Defined.

(** ** Quiescence *)



(** ** What the repaint shows *)

Lemma append_empty_r (s : string) : s +:+ EmptyString = s.
Proof.
  induction s as [|a s IH]; [reflexivity|].
  change (String a (s +:+ EmptyString) = String a s). rewrite IH. reflexivity.
Qed.

Lemma Sprintf_frame (glyph m : string) :
  Sprintf (Esc.clear_line +:+ Esc.reset +:+ "%s %s") [ArgS glyph; ArgS m]
  = Esc.clear_line +:+ Esc.reset +:+ glyph +:+ " " +:+ m.
Proof.
  change (Esc.clear_line +:+ Esc.reset +:+ glyph +:+ String " " (m +:+ EmptyString)
          = Esc.clear_line +:+ Esc.reset +:+ glyph +:+ " " +:+ m).
  rewrite append_empty_r. reflexivity.
Qed.

Lemma paint_keeps glyph w r (e : effect) :
  e ∈ term w → e ∈ term (paint glyph w r).
Proof.
  intros H. unfold paint. destruct (active r); [|exact H].
  destruct (0 <? lineNum r); simpl; rewrite ?elem_of_app; auto.
Qed.

Lemma foldl_paint_keeps glyph l (e : effect) : ∀ w,
  e ∈ term w → e ∈ term (foldl (paint glyph) w l).
Proof.
  induction l as [|r l IH]; intros w H; simpl; [exact H|].
  apply IH, paint_keeps, H.
Qed.

Lemma paint_writes_line glyph w r :
  active r = true →
  FmtPrint (Esc.clear_line +:+ Esc.reset +:+ glyph +:+ " " +:+ message r)
    ∈ term (paint glyph w r).
Proof.
  intros Ha. unfold paint. rewrite Ha, Sprintf_frame.
  destruct (0 <? lineNum r); simpl; rewrite !elem_of_app, !list_elem_of_singleton; auto.
Qed.

Lemma foldl_paint_writes_line glyph l r : ∀ w,
  r ∈ l → active r = true →
  FmtPrint (Esc.clear_line +:+ Esc.reset +:+ glyph +:+ " " +:+ message r)
    ∈ term (foldl (paint glyph) w l).
Proof.
  induction l as [|a l IH]; intros w Hin Ha; [inversion Hin|].
  simpl. apply elem_of_cons in Hin as [<- | Hin].
  - apply foldl_paint_keeps, paint_writes_line, Ha.
  - apply IH; assumption.
Qed.

Lemma tick_writes_line w r :
  0 < activeCount (sp w) → r ∈ spinners (sp w) → active r = true →
  FmtPrint (Esc.clear_line +:+ Esc.reset +:+ (chars !!! loop_i w) +:+ " " +:+ message r)
    ∈ term (tick w).
Proof.
  intros Hpos Hin Ha. unfold tick.
  destruct (Z.ltb_spec 0 (activeCount (sp w))); [|lia].
  cbn [term]. destruct (firstRun w); apply foldl_paint_writes_line; assumption.
Qed.

(** X18: the text the render loop shows for a spinner is the one given to
    Start: after Start on a registered index, the next repaint pass writes
    the line ESC[K ESC[0m, the current glyph, a space and that message. *)
Theorem started_message_is_painted (w : World) (i : Z) (m : string) (r : spinnerInfo) :
  running w = true → 0 <= i → spinners (sp w) !! Z.to_nat i = Some r →
  0 <= activeCount (sp w) →
  ∃ w1, Start i m w = Ok w1 ∧
    FmtPrint (Esc.ESC +:+ "[K" +:+ Esc.ESC +:+ "[0m" +:+ (chars !!! loop_i w) +:+ " " +:+ m)
      ∈ term (tick w1).
Proof.
  intros Hrun Hi Hr Hnn. eexists. split; [apply (Start_registered _ _ _ r); assumption|].
  set (w1 := recv _ _).
  assert (Hl : loop_i w1 = loop_i w) by (unfold w1; rewrite recv_loop_i; reflexivity).
  assert (Hc : activeCount (sp w1) = activeCount (sp w) + 1)
    by (unfold w1; rewrite recv_start_count; reflexivity).
  assert (Hin : set_active true (set_message m r) ∈ spinners (sp w1)).
  { unfold w1. rewrite recv_spinners.
    apply (list_elem_of_lookup_2 _ (Z.to_nat i)).
    apply lookup_update_at_eq, lookup_update_at_eq, Hr. }
  rewrite <- Hl.
  apply (tick_writes_line w1 (set_active true (set_message m r)));
    [lia | exact Hin | reflexivity].
Qed.

Lemma started_message_is_painted_witness :
  ∃ w1, Start 1 "working" (register_n 2 (Create DefaultConfig)).2 = Ok w1 ∧
    FmtPrint (Esc.clear_line +:+ Esc.reset +:+ "⠋ working") ∈ term (tick w1).
Proof.
  apply (started_message_is_painted (register_n 2 (Create DefaultConfig)).2 1 "working"
           (fresh_record 1)); [reflexivity | lia | reflexivity | vm_compute; discriminate].
Defined.
